(** * colcon-package-information: the [list] verb's dependency graph

    A shallow embedding of [ListVerb.main]
    (colcon_package_information/verb/list.py): the ASCII dependency matrix
    with its density figure, and the DOT rendering with its direct and
    indirect edge collectors, node naming, clustering and edge emission.

    Conventions of the embedding.
    - A Python [set] or [dict] is a list in iteration order; a dict is a list
      of (key, value) pairs whose keys are pairwise different.
    - A package descriptor is a Python object.  The record carries the value
      of [id(descriptor)] in [descriptor_id]; [==] and [hash] on descriptors
      belong to colcon_core and are modelled by equality of the records
      (the descriptors of one run come out of a set, so two different
      objects never compare equal).  A decorator wraps one descriptor and
      is hashed by identity; it is identified with its record as well.
    - The external collaborators ([get_package_descriptors],
      [topological_order_packages], [select_package_decorators]) deliver the
      list of decorators; it is the input of every function below. *)

From Stdlib Require Import List String Ascii Bool Arith PeanoNat Lia.
From Stdlib Require Import DecimalString DecimalNat.
From Stdlib Require Import QArith Lqa.
From Stdlib Require Import Permutation Sorted OrderedTypeEx.
Import ListNotations.
Local Open Scope nat_scope.
Local Open Scope string_scope.

(** ** Data model *)

(** A [pathlib.Path]: the anchor (empty for a relative path, ["/"] or a
    drive otherwise) and the components below it. *)
Record Path : Type := mkPath {
  anchor : string;
  parts : list string
}.

(** [colcon_core.package_descriptor.PackageDescriptor].  [dependencies] maps
    a category to a set of dependency names, here in [items()] order. *)
Record PackageDescriptor : Type := mkDescriptor {
  descriptor_id : nat;
  name : string;
  path : Path;
  type : string;
  dependencies : list (string * list string)
}.

(** [colcon_core.topological_order.PackageDecorator]. *)
Record PackageDecorator : Type := mkDecorator {
  descriptor : PackageDescriptor;
  selected : bool;
  recursive_dependencies : list string
}.

Definition Path_eq_dec (p q : Path) : {p = q} + {p <> q}.
Proof.
  decide equality; [apply (list_eq_dec string_dec) | apply string_dec].
Defined.

Definition PackageDescriptor_eq_dec (d e : PackageDescriptor) :
  {d = e} + {d <> e}.
Proof.
  decide equality.
  - apply (list_eq_dec
             (fun a b : string * list string =>
                ltac:(decide equality;
                      [apply (list_eq_dec string_dec) | apply string_dec]))).
  - apply string_dec.
  - apply Path_eq_dec.
  - apply string_dec.
  - apply Nat.eq_dec.
Defined.

Definition PackageDecorator_eq_dec (d e : PackageDecorator) :
  {d = e} + {d <> e}.
Proof.
  decide equality;
    [apply (list_eq_dec string_dec) | apply Bool.bool_dec
     | apply PackageDescriptor_eq_dec].
Defined.

(** ** Python containers *)

Section Containers.
Context {K V : Type}.
Variable K_dec : forall a b : K, {a = b} + {a <> b}.
Variable V_dec : forall a b : V, {a = b} + {a <> b}.

(** [x in s] for a set or list. *)
Definition mem (v : V) (s : list V) : bool :=
  if in_dec V_dec v s then true else false.

(** [s.add(v)] *)
Definition set_add (v : V) (s : list V) : list V :=
  if in_dec V_dec v s then s else (s ++ [v])%list.

(** [m.get(k)] *)
Fixpoint dict_get {W : Type} (k : K) (m : list (K * W)) : option W :=
  match m with
  | [] => None
  | (k', w) :: m' => if K_dec k k' then Some w else dict_get k m'
  end.

(** [k in m] *)
Definition dict_contains {W : Type} (k : K) (m : list (K * W)) : bool :=
  match dict_get k m with Some _ => true | None => false end.

(** [m[k] = w]: an existing key keeps its place. *)
Fixpoint dict_set {W : Type} (k : K) (w : W) (m : list (K * W))
  : list (K * W) :=
  match m with
  | [] => [(k, w)]
  | (k', w') :: m' =>
      if K_dec k k' then (k', w) :: m' else (k', w') :: dict_set k w m'
  end.

(** What is stored under [k] in a [defaultdict(set)], without creating
    the entry. *)
Definition dd_values (k : K) (m : list (K * list V)) : list V :=
  match dict_get k m with Some s => s | None => [] end.

(** [m[k].add(v)] on a [defaultdict(set)]. *)
Definition dd_add (k : K) (v : V) (m : list (K * list V))
  : list (K * list V) :=
  dict_set k (set_add v (dd_values k m)) m.
End Containers.

Definition str_mem : string -> list string -> bool := mem string_dec.

(** ** Edge collectors (list.py, lines 152-211) *)

(** A key of [direct_edges] / [indirect_edges]: the source descriptor and
    the name of the target. *)
Definition edge_key : Type := (PackageDescriptor * string)%type.

Definition edge_key_eq_dec (a b : edge_key) : {a = b} + {a <> b}.
Proof.
  decide equality; [apply string_dec | apply PackageDescriptor_eq_dec].
Defined.

(** A [defaultdict(set)] from edge keys to categories. *)
Definition edges : Type := list (edge_key * list string).

Definition edge_add : edge_key -> string -> edges -> edges :=
  dd_add edge_key_eq_dec string_dec.
Definition edge_categories : edge_key -> edges -> list string :=
  dd_values edge_key_eq_dec.
Definition edge_in : edge_key -> edges -> bool :=
  dict_contains edge_key_eq_dec.

(** [decorators_by_name]: every decorator of the full list, grouped by the
    name of its descriptor. *)
Definition by_name : Type := list (string * list PackageDecorator).

Definition get_decorators_by_name (decorators : list PackageDecorator)
  : by_name :=
  fold_left
    (fun decorators_by_name deco =>
       dd_add string_dec PackageDecorator_eq_dec
         (name (descriptor deco)) deco decorators_by_name)
    decorators [].

(** [decorators_by_name[n]] *)
Definition named (n : string) (decorators_by_name : by_name)
  : list PackageDecorator :=
  dd_values string_dec n decorators_by_name.

(** [[m.descriptor.name for m in decorators if m.selected]] *)
Definition get_selected_pkg_names (decorators : list PackageDecorator)
  : list string :=
  map (fun m => name (descriptor m)) (filter selected decorators).

(** [len(selected_pkg_names) != len(set(selected_pkg_names))] *)
Definition get_has_duplicate_names (selected_pkg_names : list string)
  : bool :=
  negb (Nat.eqb (List.length selected_pkg_names)
                 (List.length (nodup string_dec selected_pkg_names))).

(** Lines 169-183. *)
Definition collect_direct_edges (decorators : list PackageDecorator)
  (selected_pkg_names : list string) : edges :=
  fold_left
    (fun direct_edges deco =>
       if negb (selected deco) then direct_edges else
       fold_left
         (fun direct_edges (item : string * list string) =>
            let (category, deps) := item in
            fold_left
              (fun direct_edges dep =>
                 if negb (str_mem dep selected_pkg_names) then direct_edges
                 else edge_add (descriptor deco, dep) category direct_edges)
              deps direct_edges)
         (dependencies (descriptor deco)) direct_edges)
    (rev decorators) [].

(** [itertools.chain.from_iterable(d.recursive_dependencies for d in ds)] *)
Definition chain_recursive_dependencies (ds : list PackageDecorator)
  : list string :=
  flat_map recursive_dependencies ds.

(** Lines 185-211. *)
Definition collect_indirect_edges (decorators : list PackageDecorator)
  (selected_pkg_names : list string) (decorators_by_name : by_name)
  (direct_edges : edges) : edges :=
  fold_left
    (fun indirect_edges deco =>
       if negb (selected deco) then indirect_edges else
       fold_left
         (fun indirect_edges (item : string * list string) =>
            let (category, deps) := item in
            fold_left
              (fun indirect_edges dep =>
                 if str_mem dep selected_pkg_names then indirect_edges
                 else if negb (dict_contains string_dec dep decorators_by_name)
                 then indirect_edges
                 else
                   fold_left
                     (fun indirect_edges rdep =>
                        if negb (str_mem rdep selected_pkg_names)
                        then indirect_edges
                        else if edge_in (descriptor deco, rdep) direct_edges
                        then indirect_edges
                        else edge_add (descriptor deco, rdep) category
                               indirect_edges)
                     (chain_recursive_dependencies
                        (named dep decorators_by_name))
                     indirect_edges)
              deps indirect_edges)
         (dependencies (descriptor deco)) indirect_edges)
    (rev decorators) [].

(** The two collectors as [main] runs them. *)
Definition direct_edges_of (decorators : list PackageDecorator) : edges :=
  collect_direct_edges decorators (get_selected_pkg_names decorators).

Definition indirect_edges_of (decorators : list PackageDecorator) : edges :=
  collect_indirect_edges decorators (get_selected_pkg_names decorators)
    (get_decorators_by_name decorators) (direct_edges_of decorators).

(** ** ASCII matrix and density (list.py, lines 109-147) *)

Fixpoint spaces (n : nat) : string :=
  match n with
  | 0 => ""
  | S n' => String " " (spaces n')
  end.

(** [s.ljust(width)] *)
Definition ljust (s : string) (width : nat) : string :=
  s ++ spaces (width - String.length s).

(** [descriptor.get_dependencies()] of colcon_core: the union of the
    dependency names of all categories. *)
Definition get_dependencies (d : PackageDescriptor) : list string :=
  flat_map snd (dependencies d).

(** [lines[j] += c].  The index comes from [range(len(lines))], so it is
    never out of range, where Python would raise. *)
Fixpoint append_at (j : nat) (c : string) (lines : list string)
  : list string :=
  match lines, j with
  | [], _ => []
  | l :: ls, 0 => (l ++ c) :: ls
  | l :: ls, S j' => l :: append_at j' c ls
  end.

Section Matrix.
(** [descriptor.get_recursive_dependencies(descriptors,
    recursive_categories=('run', ))] of colcon_core. *)
Variable get_recursive_dependencies :
  PackageDescriptor -> list PackageDescriptor -> list string.

Definition get_shown_decorators (decorators : list PackageDecorator)
  : list PackageDecorator :=
  filter selected decorators.

(** [max([len(m.descriptor.name) for m in shown_decorators] + [0])] *)
Definition get_max_length (shown_decorators : list PackageDecorator)
  : nat :=
  list_max
    (map (fun m => String.length (name (descriptor m))) shown_decorators
     ++ [0])%list.

Definition initial_lines (shown_decorators : list PackageDecorator)
  : list string :=
  map (fun m =>
         ljust (name (descriptor m)) (get_max_length shown_decorators + 2))
      shown_decorators.

Definition get_depends (shown_decorators : list PackageDecorator)
  : list (list string) :=
  map (fun m => get_dependencies (descriptor m)) shown_decorators.

Definition get_rec_depends (decorators shown_decorators
                            : list PackageDecorator)
  : list (list string) :=
  map (fun m =>
         get_recursive_dependencies (descriptor m)
           (map descriptor decorators))
      shown_decorators.

(** [shown_decorators[j].descriptor.name], with [j < len(lines)]. *)
Definition shown_name (shown_decorators : list PackageDecorator) (j : nat)
  : string :=
  nth j (map (fun m => name (descriptor m)) shown_decorators) "".

(** The body of the inner loop, lines 127-139. *)
Definition matrix_step (shown_decorators : list PackageDecorator)
  (depends rec_depends : list (list string)) (i : nat)
  (st : list string * nat) (j : nat) : list string * nat :=
  let (lines, empty_cells) := st in
  if Nat.eqb j i then (append_at j "+" lines, empty_cells)
  else if str_mem (shown_name shown_decorators j) (nth i depends [])
  then (append_at j "*" lines, empty_cells)
  else if str_mem (shown_name shown_decorators j) (nth i rec_depends [])
  then (append_at j "." lines, empty_cells)
  else (append_at j " " lines, S empty_cells).

(** Lines 124-139: the final [lines] and [empty_cells]. *)
Definition matrix_loop (shown_decorators : list PackageDecorator)
  (depends rec_depends : list (list string)) (lines : list string)
  : list string * nat :=
  fold_left
    (fun st i =>
       fold_left (matrix_step shown_decorators depends rec_depends i)
         (seq 0 (List.length (fst st))) st)
    (seq 0 (List.length shown_decorators)) (lines, 0).

Definition topological_graph (decorators : list PackageDecorator)
  : list string * nat :=
  let shown_decorators := get_shown_decorators decorators in
  matrix_loop shown_decorators (get_depends shown_decorators)
    (get_rec_depends decorators shown_decorators)
    (initial_lines shown_decorators).

(** The printed rows. *)
Definition matrix_lines (decorators : list PackageDecorator)
  : list string :=
  fst (topological_graph decorators).

Definition matrix_empty_cells (decorators : list PackageDecorator) : nat :=
  snd (topological_graph decorators).

(** Lines 141-145.  Python's floats are taken as exact rationals. *)
Definition density_percentage (len_lines empty_cells : nat) : Q :=
  let empty_fraction :=
    if Nat.ltb 1 len_lines
    then (inject_Z (Z.of_nat empty_cells)
          / inject_Z (Z.of_nat (len_lines * (len_lines - 1))))%Q
    else 1%Q in
  (200 * (1 - empty_fraction))%Q.

(** The value handed to ['dependency density %.2f %%'], when the density
    is requested. *)
Definition reported_density (topological_graph_density : bool)
  (decorators : list PackageDecorator) : option Q :=
  if topological_graph_density
  then Some (density_percentage
               (List.length (matrix_lines decorators))
               (matrix_empty_cells decorators))
  else None.

(** The character that iteration [i] of the outer loop appends to
    [lines[j]], read off the four branches of [matrix_step]. *)
Definition symbol (shown_decorators : list PackageDecorator)
  (depends rec_depends : list (list string)) (i j : nat) : ascii :=
  if Nat.eqb j i then "+"%char
  else if str_mem (shown_name shown_decorators j) (nth i depends [])
  then "*"%char
  else if str_mem (shown_name shown_decorators j) (nth i rec_depends [])
  then "."%char
  else " "%char.

(** One column appended to all the lines from index [j] on. *)
Fixpoint add_column (sym : nat -> ascii) (j : nat) (lines : list string)
  : list string :=
  match lines with
  | [] => []
  | l :: ls => (l ++ String (sym j) "") :: add_column sym (S j) ls
  end.

(** The number of spaces among the symbols of indices [js]. *)
Definition count_empty (sym : nat -> ascii) (js : list nat) : nat :=
  List.length (filter (fun j => Ascii.eqb (sym j) " "%char) js).

(** The symbol for the pair of the shown nodes [i] and [j], [i] taken as
    the depending package: ["+"] for [j = i], ["*"] when the name of [j]
    is a dependency of [i], ["."] when it is a recursive dependency of
    [i], a space otherwise. *)
Definition matrix_symbol (decorators : list PackageDecorator) (i j : nat)
  : ascii :=
  let shown_decorators := get_shown_decorators decorators in
  symbol shown_decorators (get_depends shown_decorators)
    (get_rec_depends decorators shown_decorators) i j.

(** The symbol of row [r], column [c]: the character of [lines[r]] at
    offset [c] after the padded name. *)
Definition cell (decorators : list PackageDecorator) (r c : nat)
  : option ascii :=
  String.get
    (get_max_length (get_shown_decorators decorators) + 2 + c)
    (nth r (matrix_lines decorators) "").

Definition is_space (o : option ascii) : bool :=
  match o with
  | Some ch => Ascii.eqb ch " "%char
  | None => false
  end.

(** The number of cells of the printed matrix that hold a space. *)
Definition count_space_cells (decorators : list PackageDecorator) : nat :=
  let n := List.length (get_shown_decorators decorators) in
  list_sum
    (map (fun c =>
            List.length
              (filter (fun r => is_space (cell decorators r c)) (seq 0 n)))
       (seq 0 n)).
End Matrix.

(** ** DOT rendering (list.py, lines 149-283) *)

(** The double quote character, as a string. *)
Definition dq : string := String (ascii_of_nat 34) "".

(** [str(n)] for a non-negative integer. *)
Definition nat_str (n : nat) : string :=
  NilEmpty.string_of_uint (Nat.to_uint n).

(** [str(p)] for a [pathlib.Path]. *)
Definition path_str (p : Path) : string :=
  match parts p with
  | [] => if string_dec (anchor p) "" then "." else anchor p
  | _ :: _ => anchor p ++ String.concat "/" (parts p)
  end.

(** [p.parent] *)
Definition parent (p : Path) : Path :=
  mkPath (anchor p) (removelast (parts p)).

(** [p.name]: the final component, empty when there is none. *)
Definition path_name (p : Path) : string := last (parts p) "".

Fixpoint common_prefix (a b : list string) : list string :=
  match a, b with
  | x :: a', y :: b' =>
      if string_dec x y then x :: common_prefix a' b' else []
  | _, _ => []
  end.

(** [os.path.commonpath(paths)]: the longest common sub-path; [None] stands
    for the [ValueError] raised on an empty sequence and on paths that do
    not share their anchor (absolute mixed with relative, different
    drives).  The strings the code passes are [str(p)] of [Path] objects,
    so the function is given on the paths themselves. *)
Definition commonpath (paths : list Path) : option Path :=
  match paths with
  | [] => None
  | p :: ps =>
      if forallb (fun q => String.eqb (anchor q) (anchor p)) ps
      then Some (mkPath (anchor p)
                   (fold_left common_prefix (map parts ps) (parts p)))
      else None
  end.

Fixpoint strip_prefix (pre l : list string) : option (list string) :=
  match pre, l with
  | [], _ => Some l
  | x :: pre', y :: l' =>
      if string_dec x y then strip_prefix pre' l' else None
  | _ :: _, [] => None
  end.

(** [p.relative_to(other)]; [None] stands for the [ValueError] raised when
    [p] does not start with [other]. *)
Definition relative_to (p other : Path) : option Path :=
  if string_dec (anchor p) (anchor other)
  then match strip_prefix (parts other) (parts p) with
       | Some rest => Some (mkPath "" rest)
       | None => None
       end
  else None.

(** Lines 162-167: the [OrderedDict] from the selected descriptors, last
    decorator first, to the parent of their path. *)
Definition get_nodes (decorators : list PackageDecorator)
  : list (PackageDescriptor * Path) :=
  fold_left
    (fun nodes deco =>
       if negb (selected deco) then nodes
       else dict_set PackageDescriptor_eq_dec (descriptor deco)
              (parent (path (descriptor deco))) nodes)
    (rev decorators) [].

(** Lines 220-230: the identity token of a node and its attributes. *)
Definition get_node_data (has_duplicate_names : bool)
  (descriptor : PackageDescriptor) : string * string :=
  if negb has_duplicate_names then (name descriptor, "")
  else (name descriptor ++ "_" ++ nat_str (descriptor_id descriptor),
        " [label = " ++ dq ++ name descriptor ++ dq ++ "]").

(** The lines of the DOT output, before formatting. *)
Inductive dot_line : Type :=
| Digraph_open
| Node_decl (indent node_name attributes : string)
| Subgraph_open (i : nat)
| Subgraph_label (p : Path)
| Subgraph_close
| Edge_decl (start_name end_name colors style : string)
| Digraph_close.

(** The format strings of lines 150, 237, 248, 250, 257, 260, 280, 283. *)
Definition render_line (l : dot_line) : string :=
  match l with
  | Digraph_open => "digraph graphname {"
  | Node_decl indent node_name attributes =>
      indent ++ dq ++ node_name ++ dq ++ attributes ++ ";"
  | Subgraph_open i => "  subgraph cluster_" ++ nat_str i ++ " {"
  | Subgraph_label p => "    label = " ++ dq ++ path_str p ++ dq ++ ";"
  | Subgraph_close => "  }"
  | Edge_decl start_name end_name colors style =>
      "  " ++ dq ++ start_name ++ dq ++ " -> " ++ dq ++ end_name ++ dq
      ++ " [color=" ++ dq ++ colors ++ dq ++ style ++ "];"
  | Digraph_close => "}"
  end.

Definition node_decl (has_duplicate_names : bool) (indent : string)
  (desc : PackageDescriptor) : dot_line :=
  let (node_name, attributes) := get_node_data has_duplicate_names desc in
  Node_decl indent node_name attributes.

(** A [defaultdict(set)] from relative paths to descriptors. *)
Definition clusters_t : Type := list (Path * list PackageDescriptor).

(** Lines 240-242; [None] when [relative_to] raises. *)
Definition get_clusters (nodes : list (PackageDescriptor * Path))
  (common_path : Path) : option clusters_t :=
  fold_left
    (fun clusters (item : PackageDescriptor * Path) =>
       let (desc, path) := item in
       match clusters, relative_to path common_path with
       | Some cl, Some rel =>
           Some (dd_add Path_eq_dec PackageDescriptor_eq_dec rel desc cl)
       | _, _ => None
       end)
    nodes (Some []).

(** The relative path under which [get_clusters] files a node. *)
Definition cluster_key (common_path : Path)
  (item : PackageDescriptor * Path) : Path :=
  match relative_to (snd item) common_path with
  | Some rel => rel
  | None => mkPath "" []
  end.

(** One iteration of [get_clusters] in which [relative_to] returns. *)
Definition cluster_add (common_path : Path) (cl : clusters_t)
  (item : PackageDescriptor * Path) : clusters_t :=
  dd_add Path_eq_dec PackageDescriptor_eq_dec (cluster_key common_path item)
    (fst item) cl.

(** Lines 243-260. *)
Definition output_clusters (has_duplicate_names : bool)
  (clusters : clusters_t) : list dot_line :=
  flat_map
    (fun (ic : nat * (Path * list PackageDescriptor)) =>
       let '(i, (path, descs)) := ic in
       if string_dec (path_name path) ""
       then map (node_decl has_duplicate_names "  ") descs
       else ([Subgraph_open i; Subgraph_label path]
             ++ map (node_decl has_duplicate_names "    ") descs
             ++ [Subgraph_close])%list)
    (combine (seq 0 (List.length clusters)) clusters).

(** Lines 232-260. *)
Definition output_nodes (topological_graph_dot_cluster : bool)
  (common_path : option Path) (has_duplicate_names : bool)
  (nodes : list (PackageDescriptor * Path)) : option (list dot_line) :=
  match negb topological_graph_dot_cluster, common_path with
  | false, Some cp =>
      match get_clusters nodes cp with
      | Some clusters => Some (output_clusters has_duplicate_names clusters)
      | None => None
      end
  | _, _ => Some (map (fun item => node_decl has_duplicate_names "  "
                                     (fst item)) nodes)
  end.

Definition color_mapping : list (string * string) :=
  [("build", "blue"); ("run", "red"); ("test", "tan")].

(** Lines 273-275. *)
Definition edge_colors (categories : list string) : string :=
  String.concat ":"
    (map snd
       (filter (fun cc : string * string => str_mem (fst cc) categories)
          color_mapping)).

(** The colour expression as the specification words it: each of [build],
    [run], [test], in this order, contributes its colour when it is among
    the categories of the edge, and the colours are joined with [":"]. *)
Definition spec_edge_colors (categories : list string) : string :=
  String.concat ":"
    ((if str_mem "build" categories then ["blue"] else [])
     ++ (if str_mem "run" categories then ["red"] else [])
     ++ (if str_mem "test" categories then ["tan"] else []))%list.

Definition dashed : string := ", style=" ++ dq ++ "dashed" ++ dq.

(** Lines 272-281, for one of the two edge dictionaries. *)
Definition edge_lines (has_duplicate_names : bool)
  (decorators_by_name : by_name) (style : string) (es : edges)
  : list dot_line :=
  flat_map
    (fun (e : edge_key * list string) =>
       let '((desc_start, node_end), categories) := e in
       let colors := edge_colors categories in
       let start_name := fst (get_node_data has_duplicate_names desc_start) in
       map (fun deco =>
              Edge_decl start_name
                (fst (get_node_data has_duplicate_names (descriptor deco)))
                colors style)
           (named node_end decorators_by_name))
    es.

(** Lines 268-281. *)
Definition output_edges (has_duplicate_names : bool)
  (decorators_by_name : by_name) (direct_edges indirect_edges : edges)
  : list dot_line :=
  flat_map
    (fun se : string * edges =>
       edge_lines has_duplicate_names decorators_by_name (fst se) (snd se))
    (combine [""; dashed] [direct_edges; indirect_edges]).

(** The whole [elif args.topological_graph_dot:] branch; [None] when an
    exception escapes. *)
Definition topological_graph_dot (topological_graph_dot_cluster : bool)
  (decorators : list PackageDecorator) : option (list dot_line) :=
  let decorators_by_name := get_decorators_by_name decorators in
  let selected_pkg_names := get_selected_pkg_names decorators in
  let has_duplicate_names := get_has_duplicate_names selected_pkg_names in
  let nodes := get_nodes decorators in
  let direct_edges := collect_direct_edges decorators selected_pkg_names in
  let indirect_edges :=
    collect_indirect_edges decorators selected_pkg_names decorators_by_name
      direct_edges in
  let common_path := commonpath (map snd nodes) in
  match output_nodes topological_graph_dot_cluster common_path
          has_duplicate_names nodes with
  | Some node_lines =>
      Some ([Digraph_open] ++ node_lines
            ++ output_edges has_duplicate_names decorators_by_name
                 direct_edges indirect_edges
            ++ [Digraph_close])%list
  | None => None
  end.

(** The printed text of the DOT branch. *)
Definition dot_output (topological_graph_dot_cluster : bool)
  (decorators : list PackageDecorator) : option (list string) :=
  option_map (map render_line)
    (topological_graph_dot topological_graph_dot_cluster decorators).

(** What a list of DOT lines declares and opens. *)
Definition declared (lines : list dot_line) : list (string * string) :=
  flat_map
    (fun l =>
       match l with
       | Node_decl _ node_name attributes => [(node_name, attributes)]
       | _ => []
       end)
    lines.

Definition opened (lines : list dot_line) : list nat :=
  flat_map
    (fun l => match l with Subgraph_open i => [i] | _ => [] end) lines.

Definition closings (lines : list dot_line) : nat :=
  List.length
    (filter (fun l => match l with Subgraph_close => true | _ => false end)
       lines).

(** ** Plain listing (list.py, lines 285-303) *)

(** The tab character, as a string. *)
Definition tab : string := String (ascii_of_nat 9) "".

(** One insertion of a stable sort: [x] goes before the first element whose
    key is greater than its own. *)
Fixpoint insert_by {A : Type} (key : A -> string) (x : A) (l : list A)
  : list A :=
  match l with
  | [] => [x]
  | y :: l' =>
      if String.ltb (key x) (key y) then x :: y :: l'
      else y :: insert_by key x l'
  end.

(** [sorted(l, key=key)], and [l.sort()] with the identity as key.  Python's
    sort is stable, and a stable sort has one result; strings compare by
    their characters' codes. *)
Definition sorted_by {A : Type} (key : A -> string) (l : list A) : list A :=
  fold_left (fun acc x => insert_by key x acc) l [].

(** Lines 293-300. *)
Definition format_package (names_only paths_only : bool)
  (pkg : PackageDescriptor) : string :=
  if names_only then name pkg
  else if paths_only then path_str (path pkg)
  else name pkg ++ tab ++ path_str (path pkg)
       ++ tab ++ "(" ++ type pkg ++ ")".

(** Lines 286-303. *)
Definition list_packages (topological_order names_only paths_only : bool)
  (decorators : list PackageDecorator) : list string :=
  let decorators :=
    if negb topological_order
    then sorted_by (fun d => name (descriptor d)) decorators
    else decorators in
  let lines :=
    map (fun decorator =>
           format_package names_only paths_only (descriptor decorator))
        (filter selected decorators) in
  if negb topological_order then sorted_by (fun line => line) lines
  else lines.

(** ** The verb (list.py, lines 87-306) *)

Module Args.
Record t : Type := mk {
  topological_order : bool;
  names_only : bool;
  paths_only : bool;
  topological_graph : bool;
  topological_graph_dot : bool;
  topological_graph_density : bool;
  topological_graph_legend : bool;
  topological_graph_dot_cluster : bool
}.
End Args.




(** ** Sample inputs *)

Module Samples.
Definition ws (s : string) : Path := mkPath "/" ["ws"; s].

(** A recursive-dependency closure given as a table from descriptor ids
    to names. *)
Definition closure_of (table : list (nat * list string))
  (d : PackageDescriptor) (_ : list PackageDescriptor) : list string :=
  match dict_get Nat.eq_dec (descriptor_id d) table with
  | Some names => names
  | None => []
  end.

(** Two selected packages; [B] build-depends on [A]. *)
Definition pkg_A : PackageDescriptor := mkDescriptor 1 "A" (ws "A") "cmake" [].
Definition pkg_B : PackageDescriptor :=
  mkDescriptor 2 "B" (ws "B") "cmake" [("build", ["A"])].
Definition two_nodes : list PackageDecorator :=
  [mkDecorator pkg_A true []; mkDecorator pkg_B true ["A"]].
Definition two_nodes_closure := closure_of [(2, ["A"])].

(** [top] build-depends on [mid]; [mid] run-depends on [hidden], which is
    not selected; [hidden] run-depends on [base]. *)
Definition base : PackageDescriptor :=
  mkDescriptor 10 "base" (ws "base") "cmake" [].
Definition hidden : PackageDescriptor :=
  mkDescriptor 11 "hidden" (ws "hidden") "cmake" [("run", ["base"])].
Definition mid : PackageDescriptor :=
  mkDescriptor 12 "mid" (ws "mid") "cmake"
    [("run", ["hidden"; "nowhere"])].
Definition top : PackageDescriptor :=
  mkDescriptor 13 "top" (ws "top") "cmake" [("build", ["mid"])].
Definition chain : list PackageDecorator :=
  [mkDecorator base true [];
   mkDecorator hidden false ["base"];
   mkDecorator mid true ["hidden"; "base"];
   mkDecorator top true []].
Definition chain_closure :=
  closure_of [(11, ["base"]); (12, ["hidden"; "base"]);
              (13, ["mid"; "hidden"; "base"])].

(** Two selected packages named [lib] in different places, a third [lib]
    that is not selected, and [app], which run-depends on [lib]. *)
Definition lib_1 : PackageDescriptor :=
  mkDescriptor 21 "lib" (mkPath "/" ["ws"; "src"; "lib"]) "cmake" [].
Definition lib_2 : PackageDescriptor :=
  mkDescriptor 22 "lib" (mkPath "/" ["overlay"; "lib"]) "cmake" [].
Definition lib_3 : PackageDescriptor :=
  mkDescriptor 23 "lib" (mkPath "/" ["ws"; "extra"; "lib"]) "cmake" [].
Definition app : PackageDescriptor :=
  mkDescriptor 24 "app" (mkPath "/" ["ws"; "src"; "app"]) "cmake"
    [("run", ["lib"])].
Definition overlay : list PackageDecorator :=
  [mkDecorator lib_1 true []; mkDecorator lib_2 false [];
   mkDecorator lib_3 true []; mkDecorator app true ["lib"]].

End Samples.

(** * Properties *)

(** ** Containers *)

Section ContainerFacts.
Context {K V : Type}.
Variable K_dec : forall a b : K, {a = b} + {a <> b}.
Variable V_dec : forall a b : V, {a = b} + {a <> b}.

Lemma mem_true_iff (v : V) (s : list V) :
  mem V_dec v s = true <-> In v s.
Proof.
  unfold mem. destruct (in_dec V_dec v s); split; intros; easy.
Qed.

Lemma mem_false_iff (v : V) (s : list V) :
  mem V_dec v s = false <-> ~ In v s.
Proof.
  unfold mem. destruct (in_dec V_dec v s); split; intros; easy.
Qed.

Lemma In_set_add (x v : V) (s : list V) :
  In x (set_add V_dec v s) <-> x = v \/ In x s.
Proof.
  unfold set_add. destruct (in_dec V_dec v s) as [Hin | Hin].
  - split; [now right | intros [-> | H]; assumption].
  - rewrite in_app_iff. simpl. intuition congruence.
Qed.

Lemma NoDup_set_add (v : V) (s : list V) :
  NoDup s -> NoDup (set_add V_dec v s).
Proof.
  intros Hs. unfold set_add. destruct (in_dec V_dec v s) as [Hin | Hin].
  - exact Hs.
  - apply NoDup_app; [exact Hs | repeat constructor; easy |].
    intros x Hx [<- | []]. contradiction.
Qed.

Lemma dict_get_set {W : Type} (k k' : K) (w : W) (m : list (K * W)) :
  dict_get K_dec k' (dict_set K_dec k w m)
  = if K_dec k' k then Some w else dict_get K_dec k' m.
Proof.
  induction m as [| [k0 w0] m IH]; simpl.
  - reflexivity.
  - destruct (K_dec k k0) as [-> | Hk]; simpl.
    + destruct (K_dec k' k0); reflexivity.
    + rewrite IH. destruct (K_dec k' k0) as [-> | Hk'].
      * destruct (K_dec k0 k); [congruence | reflexivity].
      * reflexivity.
Qed.

Lemma keys_dict_set {W : Type} (k : K) (w : W) (m : list (K * W)) :
  map fst (dict_set K_dec k w m)
  = if dict_contains K_dec k m then map fst m
    else (map fst m ++ [k])%list.
Proof.
  unfold dict_contains.
  induction m as [| [k0 w0] m IH]; simpl.
  - reflexivity.
  - destruct (K_dec k k0) as [-> | Hk]; simpl.
    + reflexivity.
    + rewrite IH. destruct (dict_get K_dec k m); reflexivity.
Qed.

Lemma dict_contains_In {W : Type} (k : K) (m : list (K * W)) :
  dict_contains K_dec k m = true <-> In k (map fst m).
Proof.
  unfold dict_contains.
  induction m as [| [k0 w0] m IH]; simpl.
  - split; [discriminate | tauto].
  - destruct (K_dec k k0) as [-> | Hk].
    + split; auto.
    + rewrite IH. split; [auto | intros [H | H]; congruence].
Qed.

Lemma dict_get_In {W : Type} (k : K) (w : W) (m : list (K * W)) :
  NoDup (map fst m) -> (dict_get K_dec k m = Some w <-> In (k, w) m).
Proof.
  induction m as [| [k0 w0] m IH]; simpl; intros Hnd.
  - split; [discriminate | tauto].
  - inversion Hnd as [| ? ? Hnot Hnd']; subst.
    destruct (K_dec k k0) as [-> | Hk].
    + split.
      * intros [= ->]. now left.
      * intros [[= ->] | Hin]; [reflexivity |].
        exfalso. apply Hnot. apply in_map_iff. now exists (k0, w).
    + rewrite (IH Hnd'). split; [auto | intros [[= -> ->] | H]; easy].
Qed.

Lemma NoDup_keys_dict_set {W : Type} (k : K) (w : W) (m : list (K * W)) :
  NoDup (map fst m) -> NoDup (map fst (dict_set K_dec k w m)).
Proof.
  intros Hnd. rewrite keys_dict_set.
  destruct (dict_contains K_dec k m) eqn:Hc; [exact Hnd |].
  apply NoDup_app; [exact Hnd | repeat constructor; easy |].
  intros x Hx [<- | []].
  apply dict_contains_In in Hx. congruence.
Qed.

Lemma dd_values_add (k k' : K) (x v : V) (m : list (K * list V)) :
  In x (dd_values K_dec k' (dd_add K_dec V_dec k v m))
  <-> In x (dd_values K_dec k' m) \/ (k' = k /\ x = v).
Proof.
  unfold dd_add, dd_values at 1. rewrite dict_get_set.
  destruct (K_dec k' k) as [-> | Hk].
  - rewrite In_set_add. tauto.
  - fold (dd_values K_dec k' m). intuition congruence.
Qed.

Lemma dict_contains_dd_add (k k' : K) (v : V) (m : list (K * list V)) :
  dict_contains K_dec k' (dd_add K_dec V_dec k v m) = true
  <-> dict_contains K_dec k' m = true \/ k' = k.
Proof.
  unfold dd_add, dict_contains at 1. rewrite dict_get_set.
  destruct (K_dec k' k) as [-> | Hk].
  - split; auto.
  - fold (dict_contains K_dec k' m). intuition congruence.
Qed.
End ContainerFacts.

(** A loop that only ever adds: what can be observed after it is what
    could be observed before, or what one of its iterations added. *)
Lemma fold_left_observe {S A : Type} (obs : S -> Prop) (R : A -> Prop)
  (step : S -> A -> S) (xs : list A) :
  (forall s x, In x xs -> (obs (step s x) <-> obs s \/ R x)) ->
  forall s, obs (fold_left step xs s) <-> obs s \/ exists x, In x xs /\ R x.
Proof.
  induction xs as [| a xs IH]; simpl; intros Hstep s.
  - split; [auto | intros [H | [x [[] _]]]; exact H].
  - rewrite IH by (intros; apply Hstep; auto).
    rewrite Hstep by auto. split.
    + intros [[H | H] | [x [Hin H]]]; eauto 6.
    + intros [H | [x [[<- | Hin] H]]]; eauto 6.
Qed.

(** A loop whose every iteration keeps an invariant keeps it. *)
Lemma fold_left_invariant {S A : Type} (inv : S -> Prop)
  (step : S -> A -> S) (xs : list A) :
  (forall s x, In x xs -> inv s -> inv (step s x)) ->
  forall s, inv s -> inv (fold_left step xs s).
Proof.
  induction xs as [| a xs IH]; simpl; intros Hstep s Hs.
  - exact Hs.
  - apply IH; [intros; apply Hstep; auto | apply Hstep; auto].
Qed.

(** ** Edge collectors *)

Lemma In_named (decorators : list PackageDecorator) (n : string)
  (inst : PackageDecorator) :
  In inst (named n (get_decorators_by_name decorators))
  <-> In inst decorators /\ name (descriptor inst) = n.
Proof.
  unfold named, get_decorators_by_name.
  rewrite (fold_left_observe
             (fun m => In inst (dd_values string_dec n m))
             (fun deco => n = name (descriptor deco) /\ inst = deco)).
  - unfold dd_values. simpl. split.
    + intros [[] | [x [Hin [-> ->]]]]. auto.
    + intros [Hin <-]. right. exists inst. auto.
  - intros s x _. apply dd_values_add.
Qed.

Lemma known_name (decorators : list PackageDecorator) (n : string) :
  dict_contains string_dec n (get_decorators_by_name decorators) = true
  <-> exists inst, In inst decorators /\ name (descriptor inst) = n.
Proof.
  unfold get_decorators_by_name.
  rewrite (fold_left_observe
             (fun m => dict_contains string_dec n m = true)
             (fun deco => n = name (descriptor deco))).
  - unfold dict_contains. simpl. split.
    + intros [H | [x [Hin ->]]]; [discriminate | eauto].
    + intros [inst [Hin <-]]. eauto.
  - intros s x _. apply dict_contains_dd_add.
Qed.

Lemma In_selected_pkg_names (decorators : list PackageDecorator)
  (n : string) :
  In n (get_selected_pkg_names decorators)
  <-> exists m, In m decorators /\ selected m = true
                /\ name (descriptor m) = n.
Proof.
  unfold get_selected_pkg_names. rewrite in_map_iff. split.
  - intros [m [<- Hin]]. apply filter_In in Hin. exists m. tauto.
  - intros [m [Hin [Hsel <-]]]. exists m. rewrite filter_In. tauto.
Qed.

Section DirectEdges.
Variable selected_pkg_names : list string.

(** What one pass over the dependencies of [deco] may add under key [k]:
    [obs] is any observation that [edge_add] makes true exactly for its
    own key (and category). *)
Variable obs : edges -> Prop.
Variable hit : edge_key -> string -> Prop.
Hypothesis obs_add :
  forall k c m, obs (edge_add k c m) <-> obs m \/ hit k c.

Lemma collect_direct_edges_observe (decorators : list PackageDecorator) :
  obs (collect_direct_edges decorators selected_pkg_names)
  <-> obs []
      \/ exists deco, In deco (rev decorators) /\
           (selected deco = true /\
            exists item, In item (dependencies (descriptor deco)) /\
              exists dep, In dep (snd item) /\
                In dep selected_pkg_names /\
                hit (descriptor deco, dep) (fst item)).
Proof.
  unfold collect_direct_edges.
  apply fold_left_observe. intros s deco _.
  destruct (selected deco); simpl.
  2:{ split; [auto | intros [H | [[=] _]]; exact H]. }
  rewrite (fold_left_observe obs
             (fun item => exists dep, In dep (snd item) /\
                In dep selected_pkg_names /\
                hit (descriptor deco, dep) (fst item))).
  - split; [intros [H | H]; auto | intros [H | [_ H]]; auto].
  - intros s' [category deps] _.
    rewrite (fold_left_observe obs
               (fun dep => In dep selected_pkg_names /\
                  hit (descriptor deco, dep) category)).
    + reflexivity.
    + intros s'' dep _. unfold str_mem.
      destruct (mem string_dec dep selected_pkg_names) eqn:Hm; simpl.
      * apply mem_true_iff in Hm. rewrite obs_add. tauto.
      * apply mem_false_iff in Hm. tauto.
Qed.
End DirectEdges.

(** The direct-edge collector: the categories stored under a key. *)
Lemma direct_edge_categories (decorators : list PackageDecorator)
  (d : PackageDescriptor) (t c : string) :
  In c (edge_categories (d, t) (direct_edges_of decorators))
  <-> exists deco deps,
        In deco decorators /\ selected deco = true /\ descriptor deco = d /\
        In (c, deps) (dependencies d) /\ In t deps /\
        In t (get_selected_pkg_names decorators).
Proof.
  unfold direct_edges_of.
  rewrite (collect_direct_edges_observe _
             (fun m => In c (edge_categories (d, t) m))
             (fun k c' => (d, t) = k /\ c = c')).
  2:{ intros k c' m. unfold edge_categories, edge_add.
      rewrite dd_values_add. tauto. }
  split.
  - intros [[] | [deco [Hin [Hsel [[c' deps] [Hitem [dep H]]]]]]].
    simpl in H. destruct H as [Hdep [Hs [[= -> ->] ->]]].
    exists deco, deps. rewrite <- in_rev in Hin. auto 7.
  - intros [deco [deps [Hin [Hsel [<- [Hitem [Hdep Hs]]]]]]].
    right. exists deco. rewrite <- in_rev. split; [exact Hin |].
    split; [exact Hsel |]. exists (c, deps). split; [exact Hitem |].
    exists t. simpl. auto.
Qed.

(** The direct-edge collector: the keys. *)
Lemma direct_edge_in (decorators : list PackageDecorator)
  (d : PackageDescriptor) (t : string) :
  edge_in (d, t) (direct_edges_of decorators) = true
  <-> exists c, In c (edge_categories (d, t) (direct_edges_of decorators)).
Proof.
  unfold direct_edges_of.
  rewrite (collect_direct_edges_observe _
             (fun m => edge_in (d, t) m = true)
             (fun k c' => (d, t) = k)).
  2:{ intros k c' m. unfold edge_in, edge_add.
      rewrite dict_contains_dd_add. tauto. }
  split.
  - intros [H | [deco [Hin [Hsel [[c' deps] [Hitem [dep H]]]]]]];
      [discriminate |].
    simpl in H. destruct H as [Hdep [Hs [= -> ->]]].
    exists c'. apply direct_edge_categories.
    exists deco, deps. rewrite <- in_rev in Hin. auto 7.
  - intros [c Hc]. apply direct_edge_categories in Hc.
    destruct Hc as [deco [deps [Hin [Hsel [<- [Hitem [Hdep Hs]]]]]]].
    right. exists deco. rewrite <- in_rev. split; [exact Hin |].
    split; [exact Hsel |]. exists (c, deps). split; [exact Hitem |].
    exists t. simpl. auto.
Qed.

Section IndirectEdges.
Variable selected_pkg_names : list string.
Variable decorators_by_name : by_name.
Variable direct_edges : edges.

Variable obs : edges -> Prop.
Variable hit : edge_key -> string -> Prop.
Hypothesis obs_add :
  forall k c m, obs (edge_add k c m) <-> obs m \/ hit k c.

Lemma collect_indirect_edges_observe (decorators : list PackageDecorator) :
  obs (collect_indirect_edges decorators selected_pkg_names
         decorators_by_name direct_edges)
  <-> obs []
      \/ exists deco, In deco (rev decorators) /\
           (selected deco = true /\
            exists item, In item (dependencies (descriptor deco)) /\
              exists dep, In dep (snd item) /\
                (~ In dep selected_pkg_names /\
                 dict_contains string_dec dep decorators_by_name = true /\
                 exists rdep,
                   In rdep (chain_recursive_dependencies
                              (named dep decorators_by_name)) /\
                   (In rdep selected_pkg_names /\
                    edge_in (descriptor deco, rdep) direct_edges = false /\
                    hit (descriptor deco, rdep) (fst item)))).
Proof.
  unfold collect_indirect_edges.
  apply fold_left_observe. intros s deco _.
  destruct (selected deco); simpl.
  2:{ split; [auto | intros [H | [[=] _]]; exact H]. }
  rewrite (fold_left_observe obs
             (fun item => exists dep, In dep (snd item) /\
                (~ In dep selected_pkg_names /\
                 dict_contains string_dec dep decorators_by_name = true /\
                 exists rdep,
                   In rdep (chain_recursive_dependencies
                              (named dep decorators_by_name)) /\
                   (In rdep selected_pkg_names /\
                    edge_in (descriptor deco, rdep) direct_edges = false /\
                    hit (descriptor deco, rdep) (fst item))))).
  - split; [intros [H | H]; auto | intros [H | [_ H]]; auto].
  - intros s' [category deps] _.
    apply fold_left_observe. intros s'' dep _. unfold str_mem.
    destruct (mem string_dec dep selected_pkg_names) eqn:Hm.
    { apply mem_true_iff in Hm. tauto. }
    apply mem_false_iff in Hm.
    destruct (dict_contains string_dec dep decorators_by_name) eqn:Hk;
      simpl.
    2:{ split; [auto | intros [H | [_ [[=] _]]]; exact H]. }
    rewrite (fold_left_observe obs
               (fun rdep => In rdep selected_pkg_names /\
                  edge_in (descriptor deco, rdep) direct_edges = false /\
                  hit (descriptor deco, rdep) category)).
    + tauto.
    + intros s3 rdep _.
      destruct (mem string_dec rdep selected_pkg_names) eqn:Hr; simpl.
      * apply mem_true_iff in Hr.
        destruct (edge_in (descriptor deco, rdep) direct_edges).
        -- split; [auto | intros [H | [_ [[=] _]]]; exact H].
        -- rewrite obs_add. tauto.
      * apply mem_false_iff in Hr. tauto.
Qed.
End IndirectEdges.

(** The indirect-edge collector: the categories stored under a key. *)
Lemma indirect_edge_categories (decorators : list PackageDecorator)
  (d : PackageDescriptor) (t c : string) :
  In c (edge_categories (d, t) (indirect_edges_of decorators))
  <-> exists deco deps dep inst,
        In deco decorators /\ selected deco = true /\ descriptor deco = d /\
        In (c, deps) (dependencies d) /\ In dep deps /\
        ~ In dep (get_selected_pkg_names decorators) /\
        In inst decorators /\ name (descriptor inst) = dep /\
        In t (recursive_dependencies inst) /\
        In t (get_selected_pkg_names decorators) /\
        edge_in (d, t) (direct_edges_of decorators) = false.
Proof.
  unfold indirect_edges_of.
  rewrite (collect_indirect_edges_observe _ _ _
             (fun m => In c (edge_categories (d, t) m))
             (fun k c' => (d, t) = k /\ c = c')).
  2:{ intros k c' m. unfold edge_categories, edge_add.
      rewrite dd_values_add. tauto. }
  split.
  - intros [[] | [deco [Hin [Hsel [[c' deps] [Hitem [dep H]]]]]]].
    simpl in H.
    destruct H as [Hdep [Hns [_ [rdep [Hr [Hs [Hd [[= -> ->] ->]]]]]]]].
    unfold chain_recursive_dependencies in Hr.
    apply in_flat_map in Hr. destruct Hr as [inst [Hinst Hr]].
    apply In_named in Hinst. destruct Hinst as [Hinst Hname].
    exists deco, deps, dep, inst. rewrite <- in_rev in Hin.
    repeat split; assumption.
  - intros [deco [deps [dep [inst H]]]].
    destruct H
      as [Hin [Hsel [<- [Hitem [Hdep [Hns [Hinst [Hn [Hr [Hs Hd]]]]]]]]]].
    right. exists deco. rewrite <- in_rev. split; [exact Hin |].
    split; [exact Hsel |]. exists (c, deps). split; [exact Hitem |].
    exists dep. simpl. split; [exact Hdep |]. split; [exact Hns |].
    split; [apply known_name; eauto |].
    exists t. split; [| auto].
    unfold chain_recursive_dependencies. apply in_flat_map.
    exists inst. split; [apply In_named; auto | exact Hr].
Qed.

(** The indirect-edge collector: the keys. *)
Lemma indirect_edge_in (decorators : list PackageDecorator)
  (d : PackageDescriptor) (t : string) :
  edge_in (d, t) (indirect_edges_of decorators) = true
  <-> exists c, In c (edge_categories (d, t) (indirect_edges_of decorators)).
Proof.
  split.
  - unfold indirect_edges_of.
    rewrite (collect_indirect_edges_observe _ _ _
               (fun m => edge_in (d, t) m = true)
               (fun k c' => (d, t) = k)).
    2:{ intros k c' m. unfold edge_in, edge_add.
        rewrite dict_contains_dd_add. tauto. }
    intros [H | [deco [Hin [Hsel [[c' deps] [Hitem [dep H]]]]]]];
      [discriminate |].
    simpl in H.
    destruct H as [Hdep [Hns [_ [rdep [Hr [Hs [Hd [= -> ->]]]]]]]].
    exists c'. apply indirect_edge_categories.
    unfold chain_recursive_dependencies in Hr.
    apply in_flat_map in Hr. destruct Hr as [inst [Hinst Hr]].
    apply In_named in Hinst. destruct Hinst as [Hinst Hname].
    exists deco, deps, dep, inst. rewrite <- in_rev in Hin.
    repeat split; assumption.
  - intros [c Hc]. unfold edge_in, dict_contains.
    unfold edge_categories, dd_values in Hc.
    destruct (dict_get edge_key_eq_dec (d, t) (indirect_edges_of decorators));
      [reflexivity | destruct Hc].
Qed.

(** ** Strings *)

Lemma string_length_append (s t : string) :
  String.length (s ++ t) = String.length s + String.length t.
Proof.
  induction s as [| a s IH]; simpl; [reflexivity | now rewrite IH].
Qed.

Lemma string_append_assoc (s t u : string) : (s ++ t) ++ u = s ++ t ++ u.
Proof.
  induction s as [| a s IH]; simpl; [reflexivity | now rewrite IH].
Qed.

Lemma string_append_nil_r (s : string) : s ++ "" = s.
Proof.
  induction s as [| a s IH]; simpl; [reflexivity | now rewrite IH].
Qed.

Lemma length_spaces (n : nat) : String.length (spaces n) = n.
Proof.
  induction n as [| n IH]; simpl; [reflexivity | now rewrite IH].
Qed.

Lemma length_ljust (s : string) (width : nat) :
  String.length s <= width -> String.length (ljust s width) = width.
Proof.
  intros H. unfold ljust. rewrite string_length_append, length_spaces. lia.
Qed.

Lemma get_append_right (s t : string) (n : nat) :
  String.get (String.length s + n) (s ++ t) = String.get n t.
Proof.
  induction s as [| a s IH]; simpl; [reflexivity | exact IH].
Qed.

Lemma get_string_of_list_ascii (l : list ascii) (n : nat) :
  String.get n (string_of_list_ascii l) = nth_error l n.
Proof.
  revert n. induction l as [| a l IH]; intros [| n]; simpl; auto.
Qed.

Lemma length_string_of_list_ascii (l : list ascii) :
  String.length (string_of_list_ascii l) = List.length l.
Proof.
  induction l as [| a l IH]; simpl; [reflexivity | now rewrite IH].
Qed.

(** ** ASCII matrix *)

Section MatrixFacts.
Variable get_recursive_dependencies :
  PackageDescriptor -> list PackageDescriptor -> list string.
Variable shown_decorators : list PackageDecorator.
Variables depends rec_depends : list (list string).

Let sym := symbol shown_decorators depends rec_depends.
Let step := matrix_step shown_decorators depends rec_depends.

Lemma matrix_step_symbol (i j : nat) (lines : list string) (e : nat) :
  step i (lines, e) j
  = (append_at j (String (sym i j) "") lines, e + count_empty (sym i) [j]).
Proof.
  unfold step, sym, matrix_step, symbol, count_empty. simpl.
  destruct (Nat.eqb j i); [simpl; f_equal; lia |].
  destruct (str_mem _ (nth i depends [])); [simpl; f_equal; lia |].
  destruct (str_mem _ (nth i rec_depends [])); simpl; f_equal; lia.
Qed.

Lemma append_at_middle (pre : list string) (l c : string)
  (rest : list string) :
  append_at (List.length pre) c (pre ++ l :: rest)
  = (pre ++ (l ++ c)%string :: rest)%list.
Proof.
  induction pre as [| p pre IH]; simpl; [reflexivity | now rewrite IH].
Qed.

Lemma count_empty_cons (f : nat -> ascii) (j : nat) (js : list nat) :
  count_empty f (j :: js) = count_empty f [j] + count_empty f js.
Proof.
  unfold count_empty. simpl. destruct (Ascii.eqb (f j) " "); reflexivity.
Qed.

(** The inner loop appends one column. *)
Lemma inner_loop (i : nat) (rest pre : list string) (e : nat) :
  fold_left (step i) (seq (List.length pre) (List.length rest))
    ((pre ++ rest)%list, e)
  = ((pre ++ add_column (sym i) (List.length pre) rest)%list,
     e + count_empty (sym i) (seq (List.length pre) (List.length rest))).
Proof.
  revert pre e. induction rest as [| l rest IH]; intros pre e;
    cbn [seq Datatypes.length fold_left add_column].
  - f_equal. unfold count_empty. simpl. lia.
  - rewrite matrix_step_symbol, append_at_middle.
    change (pre ++ (l ++ String (sym i (List.length pre)) "")%string
                   :: rest)%list
      with (pre ++ [(l ++ String (sym i (List.length pre)) "")%string]
                ++ rest)%list.
    rewrite app_assoc.
    replace (S (List.length pre))
      with (List.length (pre ++ [l ++ String (sym i (List.length pre)) ""]))
      by (rewrite length_app; simpl; lia).
    rewrite IH. rewrite <- app_assoc. simpl. f_equal.
    rewrite (count_empty_cons _ (List.length pre) (seq _ _)).
    rewrite length_app. simpl.
    replace (List.length pre + 1) with (S (List.length pre)) by lia. lia.
Qed.

Lemma length_add_column (f : nat -> ascii) (j : nat) (ls : list string) :
  List.length (add_column f j ls) = List.length ls.
Proof.
  revert j. induction ls as [| l ls IH]; intros j; simpl;
    [reflexivity | now rewrite IH].
Qed.

Lemma nth_add_column (f : nat -> ascii) (j r : nat) (ls : list string) :
  r < List.length ls ->
  nth r (add_column f j ls) "" = nth r ls "" ++ String (f (j + r)) "".
Proof.
  revert j r. induction ls as [| l ls IH]; intros j [| r] H; simpl in *;
    try lia.
  - now rewrite Nat.add_0_r.
  - rewrite IH by lia. do 3 f_equal. lia.
Qed.

(** The two loops, for the outer indices [ixs]. *)
Lemma outer_loop (ixs : list nat) (lines : list string) (e : nat) :
  fold_left
    (fun st i => fold_left (step i) (seq 0 (List.length (fst st))) st)
    ixs (lines, e)
  = (fold_left (fun ls i => add_column (sym i) 0 ls) ixs lines,
     e + list_sum
           (map (fun i => count_empty (sym i) (seq 0 (List.length lines)))
              ixs)).
Proof.
  revert lines e. induction ixs as [| i ixs IH]; intros lines e;
    cbn [fold_left map fst].
  - simpl. f_equal. lia.
  - pose proof (inner_loop i lines [] e) as Hin.
    cbn [app Datatypes.length] in Hin. rewrite Hin, IH.
    rewrite length_add_column. simpl. f_equal. lia.
Qed.

Lemma length_columns (ixs : list nat) (lines : list string) :
  List.length (fold_left (fun ls i => add_column (sym i) 0 ls) ixs lines)
  = List.length lines.
Proof.
  revert lines. induction ixs as [| i ixs IH]; intros lines; simpl;
    [reflexivity | now rewrite IH, length_add_column].
Qed.

(** Row [r] after the loops: its start, then one symbol per outer index. *)
Lemma nth_columns (ixs : list nat) (lines : list string) (r : nat) :
  r < List.length lines ->
  nth r (fold_left (fun ls i => add_column (sym i) 0 ls) ixs lines) ""
  = nth r lines "" ++ string_of_list_ascii (map (fun i => sym i r) ixs).
Proof.
  revert lines. induction ixs as [| i ixs IH]; intros lines H; simpl.
  - now rewrite string_append_nil_r.
  - rewrite IH by (now rewrite length_add_column).
    rewrite nth_add_column by exact H. simpl.
    now rewrite string_append_assoc.
Qed.


End MatrixFacts.

Lemma nth_map_map {A B C : Type} (f : B -> C) (g : A -> B) (l : list A)
  (r : nat) (d1 : C) (d2 : B) :
  r < List.length l ->
  nth r (map (fun x => f (g x)) l) d1 = f (nth r (map g l) d2).
Proof.
  revert r. induction l as [| a l IH]; intros [| r] H; simpl in *;
    try lia; [reflexivity | apply IH; lia].
Qed.

Lemma list_max_ge (l : list nat) (x : nat) : In x l -> x <= list_max l.
Proof.
  intros H. pose proof (proj1 (list_max_le l (list_max l)) (le_n _)) as Hall.
  rewrite Forall_forall in Hall. auto.
Qed.

Section MatrixResult.
Variable get_recursive_dependencies :
  PackageDescriptor -> list PackageDescriptor -> list string.
Variable decorators : list PackageDecorator.

Let shown := get_shown_decorators decorators.
Let n := List.length shown.
Let width := get_max_length shown + 2.
Let msym := matrix_symbol get_recursive_dependencies decorators.

Lemma topological_graph_eq :
  topological_graph get_recursive_dependencies decorators
  = (fold_left (fun ls i => add_column (msym i) 0 ls) (seq 0 n)
       (initial_lines shown),
     list_sum (map (fun i => count_empty (msym i) (seq 0 n)) (seq 0 n))).
Proof.
  unfold topological_graph, matrix_loop. fold shown.
  rewrite outer_loop. simpl. f_equal.
  unfold initial_lines. rewrite length_map. reflexivity.
Qed.

Lemma length_matrix_lines :
  List.length (matrix_lines get_recursive_dependencies decorators) = n.
Proof.
  unfold matrix_lines. rewrite topological_graph_eq. simpl.
  unfold msym, matrix_symbol.
  rewrite length_columns. unfold initial_lines. now rewrite length_map.
Qed.

Lemma shown_name_length (r : nat) :
  String.length (shown_name shown r) <= get_max_length shown.
Proof.
  unfold shown_name, get_max_length.
  rewrite list_max_app. apply Nat.max_le_iff. left.
  destruct (Nat.lt_ge_cases r n) as [Hr | Hr].
  - apply list_max_ge.
    rewrite <- (nth_map_map String.length
                  (fun m => name (descriptor m)) shown r 0 "") by exact Hr.
    apply nth_In. now rewrite length_map.
  - rewrite nth_overflow by (now rewrite length_map). simpl. lia.
Qed.

(** Row [r]: the padded name, then the [n] symbols of the columns. *)
Lemma matrix_row (r : nat) :
  r < n ->
  nth r (matrix_lines get_recursive_dependencies decorators) ""
  = ljust (shown_name shown r) width
    ++ string_of_list_ascii (map (fun c => msym c r) (seq 0 n)).
Proof.
  intros Hr. unfold matrix_lines. rewrite topological_graph_eq. simpl.
  unfold msym, matrix_symbol.
  rewrite nth_columns
    by (unfold initial_lines; now rewrite length_map).
  f_equal. unfold initial_lines, shown_name.
  apply (nth_map_map (fun s => ljust s width)
           (fun m => name (descriptor m))). exact Hr.
Qed.

Lemma matrix_prefix_length (r : nat) :
  String.length (ljust (shown_name shown r) width) = width.
Proof.
  apply length_ljust. pose proof (shown_name_length r). unfold width. lia.
Qed.

(** The symbol of row [r], column [c] is the one for the pair with the
    node of the column as the depending package. *)
Lemma matrix_cell (r c : nat) :
  r < n -> c < n ->
  cell get_recursive_dependencies decorators r c = Some (msym c r).
Proof.
  intros Hr Hc. unfold cell. fold shown. fold width.
  rewrite matrix_row by exact Hr.
  rewrite <- (matrix_prefix_length r) at 1.
  rewrite get_append_right, get_string_of_list_ascii.
  rewrite nth_error_map, nth_error_nth' with (d := 0)
    by (now rewrite length_seq).
  simpl. rewrite seq_nth by exact Hc. reflexivity.
Qed.

Lemma matrix_empty_cells_eq :
  matrix_empty_cells get_recursive_dependencies decorators
  = list_sum (map (fun i => count_empty (msym i) (seq 0 n)) (seq 0 n)).
Proof.
  unfold matrix_empty_cells. now rewrite topological_graph_eq.
Qed.

End MatrixResult.

(** ** The claims on the edge collectors *)

(** C1.  The indirect-edge collector stores category [c] under the key
    (source descriptor [d], target name [t]) exactly when [d] is the
    descriptor of a selected decorator that declares, under [c], a
    dependency name [dep] which is no selected name but the name of some
    decorator [inst] of the full list, [t] is a selected name in the
    recursive dependencies of [inst], and no direct edge has the key
    [(d, t)]; a key is present exactly when it holds some category.  A
    dependency name that no decorator bears thus contributes nothing. *)
Theorem C1_indirect_edge_collector (decorators : list PackageDecorator)
  (d : PackageDescriptor) (t : string) :
  (forall c,
     In c (edge_categories (d, t) (indirect_edges_of decorators))
     <-> exists deco deps dep inst,
           In deco decorators /\ selected deco = true /\
           descriptor deco = d /\
           In (c, deps) (dependencies d) /\ In dep deps /\
           ~ In dep (get_selected_pkg_names decorators) /\
           In inst decorators /\ name (descriptor inst) = dep /\
           In t (recursive_dependencies inst) /\
           In t (get_selected_pkg_names decorators) /\
           edge_in (d, t) (direct_edges_of decorators) = false)
  /\ (edge_in (d, t) (indirect_edges_of decorators) = true
      <-> exists c,
            In c (edge_categories (d, t) (indirect_edges_of decorators))).
Proof.
  split.
  - intros c. apply indirect_edge_categories.
  - apply indirect_edge_in.
Qed.

(** ** The claims on the ASCII matrix *)

Section MatrixClaims.
Variable get_recursive_dependencies :
  PackageDescriptor -> list PackageDescriptor -> list string.
Variable decorators : list PackageDecorator.

Let shown := get_shown_decorators decorators.
Let n := List.length shown.

Lemma matrix_symbol_cases (i j : nat) :
  matrix_symbol get_recursive_dependencies decorators i j
  = (if Nat.eqb j i then "+"
     else if str_mem (shown_name shown j) (nth i (get_depends shown) [])
     then "*"
     else if str_mem (shown_name shown j)
               (nth i (get_rec_depends get_recursive_dependencies
                         decorators shown) [])
     then "."
     else " ")%char.
Proof. reflexivity. Qed.

Lemma count_space_cells_eq :
  count_space_cells get_recursive_dependencies decorators
  = matrix_empty_cells get_recursive_dependencies decorators.
Proof.
  rewrite matrix_empty_cells_eq. unfold count_space_cells. fold shown n.
  f_equal. apply map_ext_in. intros c Hc. apply in_seq in Hc.
  unfold count_empty. f_equal. apply filter_ext_in. intros r Hr.
  apply in_seq in Hr.
  rewrite matrix_cell by (fold shown n; lia). reflexivity.
Qed.
End MatrixClaims.

(** C2, as the code has it.  For the shown nodes [r] and [c], the cell at
    row [r], column [c] is ["+"] when [c = r]; otherwise ["*"] when the name
    of node [r] is among the dependencies of node [c], the node of the
    column; otherwise ["."] when it is among the recursive dependencies of
    node [c]; otherwise a space.  The empty-cell counter ends as the number
    of cells that hold a space. *)
Theorem C2_cell_column_depends_on_row
  (get_recursive_dependencies :
     PackageDescriptor -> list PackageDescriptor -> list string)
  (decorators : list PackageDecorator) :
  let shown := get_shown_decorators decorators in
  (forall r c, r < List.length shown -> c < List.length shown ->
     cell get_recursive_dependencies decorators r c
     = Some (if Nat.eqb r c then "+"
             else if str_mem (shown_name shown r)
                       (nth c (get_depends shown) [])
             then "*"
             else if str_mem (shown_name shown r)
                       (nth c (get_rec_depends get_recursive_dependencies
                                 decorators shown) [])
             then "."
             else " ")%char)
  /\ matrix_empty_cells get_recursive_dependencies decorators
     = count_space_cells get_recursive_dependencies decorators.
Proof.
  intros shown. split.
  - intros r c Hr Hc. rewrite matrix_cell by assumption.
    rewrite matrix_symbol_cases. reflexivity.
  - symmetry. apply count_space_cells_eq.
Qed.

Lemma C2_cell_column_depends_on_row_witness :
  cell Samples.two_nodes_closure Samples.two_nodes 0 1 = Some "*"%char
  /\ cell Samples.two_nodes_closure Samples.two_nodes 1 0 = Some " "%char
  /\ matrix_empty_cells Samples.two_nodes_closure Samples.two_nodes = 1.
Proof.
  destruct (C2_cell_column_depends_on_row
              Samples.two_nodes_closure Samples.two_nodes) as [Hcell Hcount].
  split; [| split].
  - rewrite (Hcell 0 1); [reflexivity | simpl; lia | simpl; lia].
  - rewrite (Hcell 1 0); [reflexivity | simpl; lia | simpl; lia].
  - rewrite Hcount. reflexivity.
Defined.

(** C2, as the claim words it, fails.  The claim reads row [i], column [j]
    as the relation of node [i] to node [j], that is
    [matrix_symbol i j].  In [two_nodes] node 1 ([B]) depends on node 0
    ([A]) and node 0 depends on nothing, so the claim wants a space at
    row 0, column 1; the code prints ["*"] there. *)
Lemma C2_row_as_source_counterexample :
  matrix_lines Samples.two_nodes_closure Samples.two_nodes
  = ["A  +*"; "B   +"]
  /\ matrix_symbol Samples.two_nodes_closure Samples.two_nodes 0 1 = " "%char
  /\ ~ (forall i j, i < 2 -> j < 2 ->
          cell Samples.two_nodes_closure Samples.two_nodes i j
          = Some (matrix_symbol Samples.two_nodes_closure
                    Samples.two_nodes i j)).
Proof.
  split; [reflexivity | split; [reflexivity |]].
  intros H. specialize (H 0 1 ltac:(lia) ltac:(lia)).
  vm_compute in H. discriminate H.
Qed.

(** C8.  The matrix has one row per shown node; row [r] is the name of
    node [r] padded to the common width (the longest name plus two),
    followed by exactly as many symbols as there are shown nodes, and its
    symbol on the diagonal is ["+"]. *)
Theorem C8_matrix_square_with_plus_diagonal
  (get_recursive_dependencies :
     PackageDescriptor -> list PackageDescriptor -> list string)
  (decorators : list PackageDecorator) :
  let shown := get_shown_decorators decorators in
  let n := List.length shown in
  let width := get_max_length shown + 2 in
  List.length (matrix_lines get_recursive_dependencies decorators) = n
  /\ forall r, r < n ->
       exists prefix cells,
         nth r (matrix_lines get_recursive_dependencies decorators) ""
         = prefix ++ cells
         /\ prefix = ljust (shown_name shown r) width
         /\ String.length prefix = width
         /\ String.length cells = n
         /\ String.get r cells = Some "+"%char
         /\ cell get_recursive_dependencies decorators r r = Some "+"%char.
Proof.
  intros shown n width. split; [apply length_matrix_lines |].
  intros r Hr.
  exists (ljust (shown_name shown r) width).
  exists (string_of_list_ascii
            (map (fun c => matrix_symbol get_recursive_dependencies
                             decorators c r) (seq 0 n))).
  split; [apply matrix_row; exact Hr |].
  split; [reflexivity |].
  split; [apply matrix_prefix_length |].
  split; [now rewrite length_string_of_list_ascii, length_map, length_seq |].
  assert (Hd : matrix_symbol get_recursive_dependencies decorators r r
               = "+"%char).
  { rewrite matrix_symbol_cases, Nat.eqb_refl. reflexivity. }
  split.
  - rewrite get_string_of_list_ascii, nth_error_map.
    rewrite nth_error_nth' with (d := 0) by (now rewrite length_seq).
    rewrite seq_nth by exact Hr. simpl. now rewrite Hd.
  - rewrite matrix_cell by exact Hr. now rewrite Hd.
Qed.

(** C3.  In dot mode no key of the direct-edge dictionary is a key of the
    indirect-edge dictionary.  In the matrix a cell holds ["*"] only for a
    direct dependency and ["."] only where there is none, so no cell is
    marked as both. *)
Theorem C3_never_both_direct_and_indirect
  (get_recursive_dependencies :
     PackageDescriptor -> list PackageDescriptor -> list string)
  (decorators : list PackageDecorator) :
  let shown := get_shown_decorators decorators in
  (forall k,
     edge_in k (direct_edges_of decorators) = true ->
     edge_in k (indirect_edges_of decorators) = false)
  /\ (forall r c, r < List.length shown -> c < List.length shown ->
        (cell get_recursive_dependencies decorators r c = Some "*"%char ->
         In (shown_name shown r) (nth c (get_depends shown) []))
        /\ (cell get_recursive_dependencies decorators r c = Some "."%char ->
            ~ In (shown_name shown r) (nth c (get_depends shown) []))
        /\ ~ (cell get_recursive_dependencies decorators r c = Some "*"%char
              /\ cell get_recursive_dependencies decorators r c
                 = Some "."%char)).
Proof.
  intros shown. split.
  - intros [d t] Hdirect.
    destruct (edge_in (d, t) (indirect_edges_of decorators)) eqn:Hindirect;
      [| reflexivity].
    apply indirect_edge_in in Hindirect. destruct Hindirect as [c Hc].
    apply indirect_edge_categories in Hc.
    destruct Hc as [deco [deps [dep [inst Hc]]]].
    decompose [and] Hc. congruence.
  - intros r c Hr Hc. rewrite matrix_cell by assumption.
    rewrite matrix_symbol_cases. fold shown.
    destruct (Nat.eqb r c).
    { repeat split; try discriminate. intros [H _]. discriminate H. }
    unfold str_mem.
    destruct (mem string_dec (shown_name shown r)
                (nth c (get_depends shown) [])) eqn:Hm.
    + apply mem_true_iff in Hm.
      repeat split; try discriminate; auto. intros [_ H]. discriminate H.
    + apply mem_false_iff in Hm.
      destruct (mem string_dec (shown_name shown r) _);
        repeat split; try discriminate; auto; intros [H _]; discriminate H.
Qed.

Lemma C3_never_both_direct_and_indirect_witness :
  edge_in (Samples.top, "mid") (indirect_edges_of Samples.chain) = false
  /\ ~ In "base" (get_dependencies Samples.mid).
Proof.
  destruct (C3_never_both_direct_and_indirect
              Samples.chain_closure Samples.chain) as [Hdot Hmatrix].
  split.
  - apply Hdot. vm_compute. reflexivity.
  - destruct (Hmatrix 0 1) as [_ [Hdotted _]];
      [simpl; lia | simpl; lia |].
    apply Hdotted. vm_compute. reflexivity.
Defined.

(** ** The claim on the density *)



(** ** DOT rendering: the selected nodes *)

Lemma get_nodes_keys (decorators : list PackageDecorator)
  (d : PackageDescriptor) :
  In d (map fst (get_nodes decorators))
  <-> exists deco, In deco decorators /\ selected deco = true
                   /\ descriptor deco = d.
Proof.
  unfold get_nodes.
  rewrite (fold_left_observe
             (fun m => In d (map fst m))
             (fun deco => selected deco = true /\ descriptor deco = d)).
  - simpl. split.
    + intros [[] | [deco [Hin H]]]. exists deco.
      rewrite <- in_rev in Hin. tauto.
    + intros [deco [Hin H]]. right. exists deco. rewrite <- in_rev. tauto.
  - intros s deco _. destruct (selected deco); simpl.
    + rewrite keys_dict_set.
      destruct (dict_contains PackageDescriptor_eq_dec (descriptor deco) s)
        eqn:Hc.
      * apply dict_contains_In in Hc. split; [auto |].
        intros [H | [_ <-]]; assumption.
      * rewrite in_app_iff. simpl. intuition congruence.
    + split; [auto | intros [H | [[=] _]]; exact H].
Qed.

Lemma get_nodes_NoDup (decorators : list PackageDecorator) :
  NoDup (map fst (get_nodes decorators)).
Proof.
  unfold get_nodes.
  apply (fold_left_invariant
           (fun m : list (PackageDescriptor * Path) => NoDup (map fst m))).
  - intros s deco _ Hs. destruct (selected deco); simpl;
      [now apply NoDup_keys_dict_set | exact Hs].
  - constructor.
Qed.

Lemma In_dict_set {K W : Type} (K_dec : forall a b : K, {a = b} + {a <> b})
  (k : K) (w : W) (m : list (K * W)) (x : K * W) :
  In x (dict_set K_dec k w m) -> In x m \/ snd x = w.
Proof.
  induction m as [| [k0 w0] m IH]; simpl.
  - intros [<- | []]. now right.
  - destruct (K_dec k k0) as [-> | Hk]; simpl.
    + intros [<- | H]; [now right | auto].
    + intros [<- | H]; [auto | destruct (IH H); auto].
Qed.

Lemma get_nodes_parent (decorators : list PackageDecorator)
  (item : PackageDescriptor * Path) :
  In item (get_nodes decorators) -> snd item = parent (path (fst item)).
Proof.
  unfold get_nodes. revert item.
  apply (fold_left_invariant
           (fun m : list (PackageDescriptor * Path) =>
              forall item, In item m -> snd item = parent (path (fst item)))).
  - intros s deco _ Hs item. destruct (selected deco); simpl; [| apply Hs].
    revert item.
    induction s as [| [k0 w0] s IH]; simpl.
    + intros item [<- | []]. reflexivity.
    + destruct (PackageDescriptor_eq_dec (descriptor deco) k0) as [<- | Hk];
        simpl.
      * intros item [<- | H]; [reflexivity | apply Hs; simpl; auto].
      * intros item [<- | H]; [apply Hs; simpl; auto |].
        apply IH; [| exact H]. intros it Hit. apply Hs. simpl. auto.
  - intros item [].
Qed.

Lemma fold_left_skip {S A : Type} (step : S -> A -> S) (xs : list A)
  (s : S) :
  (forall s' x, In x xs -> step s' x = s') -> fold_left step xs s = s.
Proof.
  induction xs as [| a xs IH]; simpl; intros H; [reflexivity |].
  rewrite H by auto. apply IH. intros; apply H; auto.
Qed.

Lemma filter_nil_all_false {A : Type} (f : A -> bool) (l : list A) :
  filter f l = [] -> forall x, In x l -> f x = false.
Proof.
  induction l as [| a l IH]; simpl; [intros _ x [] |].
  destruct (f a) eqn:Ha; [discriminate |].
  intros H x [<- | Hx]; auto.
Qed.

Section NothingSelected.
Variable decorators : list PackageDecorator.
Hypothesis none : filter selected decorators = [].

Lemma none_selected (deco : PackageDecorator) :
  In deco (rev decorators) -> selected deco = false.
Proof.
  intros H. apply in_rev in H. revert deco H.
  apply filter_nil_all_false. exact none.
Qed.

Lemma get_nodes_nothing : get_nodes decorators = [].
Proof.
  unfold get_nodes. apply fold_left_skip. intros s deco H.
  now rewrite (none_selected deco H).
Qed.

Lemma direct_edges_nothing (names : list string) :
  collect_direct_edges decorators names = [].
Proof.
  unfold collect_direct_edges. apply fold_left_skip. intros s deco H.
  now rewrite (none_selected deco H).
Qed.

Lemma indirect_edges_nothing (names : list string) (m : by_name)
  (direct : edges) :
  collect_indirect_edges decorators names m direct = [].
Proof.
  unfold collect_indirect_edges. apply fold_left_skip. intros s deco H.
  now rewrite (none_selected deco H).
Qed.
End NothingSelected.

(** C9.  When no decorator is selected, the matrix has no rows, the
    density, when requested, is reported as 0, and the DOT output, with or
    without clustering, is the opening line followed by the closing
    brace. *)
Theorem C9_empty_selection
  (get_recursive_dependencies :
     PackageDescriptor -> list PackageDescriptor -> list string)
  (topological_graph_dot_cluster : bool)
  (decorators : list PackageDecorator) :
  filter selected decorators = [] ->
  matrix_lines get_recursive_dependencies decorators = []
  /\ (exists q,
        reported_density get_recursive_dependencies true decorators = Some q
        /\ q = (200 * (1 - 1))%Q /\ (q == 0)%Q)
  /\ dot_output topological_graph_dot_cluster decorators
     = Some ["digraph graphname {"; "}"].
Proof.
  intros Hnone.
  assert (Hlines : matrix_lines get_recursive_dependencies decorators = []).
  { unfold matrix_lines, topological_graph, get_shown_decorators.
    rewrite Hnone. reflexivity. }
  split; [exact Hlines |]. split.
  - unfold reported_density. rewrite Hlines.
    exists (200 * (1 - 1))%Q.
    split; [reflexivity |]. split; [reflexivity | lra].
  - unfold dot_output, topological_graph_dot.
    rewrite get_nodes_nothing, direct_edges_nothing, indirect_edges_nothing
      by exact Hnone.
    simpl. destruct topological_graph_dot_cluster; reflexivity.
Qed.

Lemma C9_empty_selection_witness :
  matrix_lines Samples.chain_closure [mkDecorator Samples.hidden false ["base"]]
  = []
  /\ dot_output true [mkDecorator Samples.hidden false ["base"]]
     = Some ["digraph graphname {"; "}"].
Proof.
  destruct (C9_empty_selection Samples.chain_closure true
              [mkDecorator Samples.hidden false ["base"]] eq_refl)
    as [Hm [_ Hd]].
  split; [exact Hm | exact Hd].
Defined.

(** ** DOT rendering: node naming *)

Lemma length_nodup_le (l : list string) :
  List.length (nodup string_dec l) <= List.length l.
Proof.
  induction l as [| a l IH]; simpl; [lia |].
  destruct (in_dec string_dec a l); simpl; lia.
Qed.

Lemma has_duplicate_names_false (names : list string) :
  get_has_duplicate_names names = false <-> NoDup names.
Proof.
  unfold get_has_duplicate_names. rewrite negb_false_iff, Nat.eqb_eq.
  split.
  - induction names as [| a names IH]; simpl; intros H; [constructor |].
    pose proof (length_nodup_le names) as Hle.
    destruct (in_dec string_dec a names) as [Hin | Hin]; simpl in H.
    + lia.
    + constructor; [exact Hin | apply IH; lia].
  - intros H. now rewrite nodup_fixed_point.
Qed.

Lemma has_duplicate_names_true (names : list string) :
  get_has_duplicate_names names = true <-> ~ NoDup names.
Proof.
  rewrite <- has_duplicate_names_false.
  destruct (get_has_duplicate_names names); split; congruence.
Qed.

Lemma NoDup_map_eq {A B : Type} (f : A -> B) (l : list A) (x y : A) :
  NoDup (map f l) -> In x l -> In y l -> f x = f y -> x = y.
Proof.
  induction l as [| a l IH]; simpl; intros Hnd Hx Hy Hf; [destruct Hx |].
  inversion Hnd as [| ? ? Hnot Hnd']; subst.
  destruct Hx as [-> | Hx], Hy as [-> | Hy]; auto.
  - exfalso. apply Hnot. rewrite Hf. now apply in_map.
  - exfalso. apply Hnot. rewrite <- Hf. now apply in_map.
Qed.

Lemma list_ascii_of_string_app (s t : string) :
  list_ascii_of_string (s ++ t)
  = (list_ascii_of_string s ++ list_ascii_of_string t)%list.
Proof.
  induction s as [| a s IH]; simpl; [reflexivity | now rewrite IH].
Qed.

Lemma string_of_uint_no_underscore (d : Decimal.uint) :
  ~ In "_"%char (list_ascii_of_string (NilEmpty.string_of_uint d)).
Proof.
  induction d; simpl; intros H; auto;
    destruct H as [H | H]; try discriminate H; auto.
Qed.

Lemma nat_str_inj (a b : nat) : nat_str a = nat_str b -> a = b.
Proof.
  unfold nat_str. intros H.
  apply DecimalNat.Unsigned.to_uint_inj.
  assert (Hs : Some (Nat.to_uint a) = Some (Nat.to_uint b)).
  { rewrite <- (NilEmpty.usu (Nat.to_uint a)),
            <- (NilEmpty.usu (Nat.to_uint b)).
    now rewrite H. }
  now injection Hs.
Qed.

(** A name, an underscore and a run of characters without underscore can
    be read back in one way only. *)
Lemma suffixed_inj (n1 n2 d1 d2 : string) :
  ~ In "_"%char (list_ascii_of_string d1) ->
  ~ In "_"%char (list_ascii_of_string d2) ->
  n1 ++ "_" ++ d1 = n2 ++ "_" ++ d2 -> n1 = n2 /\ d1 = d2.
Proof.
  intros H1 H2. revert n2.
  induction n1 as [| c n1 IH]; intros [| c' n2]; simpl; intros H.
  - injection H as ->. auto.
  - injection H as <- ->. exfalso. apply H1.
    rewrite list_ascii_of_string_app, in_app_iff. right. simpl. auto.
  - injection H as -> <-. exfalso. apply H2.
    rewrite list_ascii_of_string_app, in_app_iff. right. simpl. auto.
  - injection H as -> H. destruct (IH _ H) as [-> ->]. auto.
Qed.

Lemma suffixed_token_inj (d1 d2 : PackageDescriptor) :
  name d1 ++ "_" ++ nat_str (descriptor_id d1)
  = name d2 ++ "_" ++ nat_str (descriptor_id d2) ->
  name d1 = name d2 /\ descriptor_id d1 = descriptor_id d2.
Proof.
  intros H. apply suffixed_inj in H.
  - destruct H as [Hn Hd]. split; [exact Hn | now apply nat_str_inj].
  - apply string_of_uint_no_underscore.
  - apply string_of_uint_no_underscore.
Qed.

(** C4.  When the names of the selected nodes are pairwise different, the
    token of every node is its plain name and it carries no attribute.
    When two selected nodes share a name, the token of every node is its
    name suffixed with the id of its descriptor, with a label attribute
    holding the plain name.  In both cases two different declared nodes
    get different tokens, ids being unique per descriptor; in the second
    case so do any two descriptors with different ids. *)
Theorem C4_dot_node_naming (decorators : list PackageDecorator) :
  let names := get_selected_pkg_names decorators in
  let dup := get_has_duplicate_names names in
  (NoDup names -> forall d, get_node_data dup d = (name d, ""))
  /\ (~ NoDup names ->
      forall d,
        get_node_data dup d
        = (name d ++ "_" ++ nat_str (descriptor_id d),
           " [label = " ++ dq ++ name d ++ dq ++ "]"))
  /\ ((forall d1 d2,
         In d1 (map fst (get_nodes decorators)) ->
         In d2 (map fst (get_nodes decorators)) ->
         descriptor_id d1 = descriptor_id d2 -> d1 = d2) ->
      forall d1 d2,
        In d1 (map fst (get_nodes decorators)) ->
        In d2 (map fst (get_nodes decorators)) ->
        d1 <> d2 ->
        fst (get_node_data dup d1) <> fst (get_node_data dup d2))
  /\ (~ NoDup names ->
      forall d1 d2,
        descriptor_id d1 <> descriptor_id d2 ->
        fst (get_node_data dup d1) <> fst (get_node_data dup d2)).
Proof.
  intros names dup. split; [| split; [| split]].
  - intros Hnd d. apply has_duplicate_names_false in Hnd.
    unfold get_node_data. fold names dup in Hnd |- *. now rewrite Hnd.
  - intros Hnd d. apply has_duplicate_names_true in Hnd.
    unfold get_node_data. fold names dup in Hnd |- *. now rewrite Hnd.
  - intros Hid d1 d2 H1 H2 Hneq Htok.
    unfold get_node_data in Htok. destruct dup eqn:Hdup; simpl in Htok.
    + apply suffixed_token_inj in Htok. destruct Htok as [_ Hsame].
      apply Hneq. now apply Hid.
    + apply has_duplicate_names_false in Hdup.
      apply get_nodes_keys in H1, H2.
      destruct H1 as [m1 [Hin1 [Hs1 <-]]], H2 as [m2 [Hin2 [Hs2 <-]]].
      apply Hneq. f_equal.
      apply (NoDup_map_eq (fun m => name (descriptor m))
               (filter selected decorators)); auto.
      * apply filter_In. auto.
      * apply filter_In. auto.
  - intros Hnd d1 d2 Hid Htok. apply has_duplicate_names_true in Hnd.
    unfold get_node_data in Htok. fold names dup in Hnd. rewrite Hnd in Htok.
    simpl in Htok. apply suffixed_token_inj in Htok. tauto.
Qed.

Lemma C4_dot_node_naming_witness :
  fst (get_node_data true Samples.lib_1)
  <> fst (get_node_data true Samples.lib_3).
Proof.
  destruct (C4_dot_node_naming Samples.overlay) as [_ [_ [H _]]].
  apply (fun Hid => H Hid Samples.lib_1 Samples.lib_3).
  - simpl. intros d1 d2 H1 H2 Hid.
    intuition (subst; try reflexivity; cbv in Hid; discriminate Hid).
  - simpl. auto.
  - simpl. auto.
  - discriminate.
Defined.

(** ** DOT rendering: clustering *)

Lemma strip_prefix_app (pre rest : list string) :
  strip_prefix pre (pre ++ rest) = Some rest.
Proof.
  induction pre as [| x pre IH]; simpl; [reflexivity |].
  destruct (string_dec x x); [exact IH | congruence].
Qed.

Lemma common_prefix_l (a b : list string) :
  exists rest, a = (common_prefix a b ++ rest)%list.
Proof.
  revert b. induction a as [| x a IH]; intros [| y b]; simpl;
    try (eexists; reflexivity).
  destruct (string_dec x y); [| eexists; reflexivity].
  destruct (IH b) as [rest Hr]. exists rest. simpl. now rewrite <- Hr.
Qed.

Lemma common_prefix_r (a b : list string) :
  exists rest, b = (common_prefix a b ++ rest)%list.
Proof.
  revert b. induction a as [| x a IH]; intros [| y b]; simpl;
    try (eexists; reflexivity).
  destruct (string_dec x y) as [-> | Hxy]; [| eexists; reflexivity].
  destruct (IH b) as [rest Hr]. exists rest. simpl. now rewrite <- Hr.
Qed.

Lemma fold_common_prefix_init (ls : list (list string)) (a : list string) :
  exists rest, a = (fold_left common_prefix ls a ++ rest)%list.
Proof.
  revert a. induction ls as [| l ls IH]; intros a; simpl.
  - exists []. now rewrite app_nil_r.
  - destruct (IH (common_prefix a l)) as [r1 H1].
    destruct (common_prefix_l a l) as [r2 H2].
    exists (r1 ++ r2)%list. rewrite app_assoc, <- H1. exact H2.
Qed.

Lemma fold_common_prefix_each (ls : list (list string)) (a l : list string) :
  In l ls -> exists rest, l = (fold_left common_prefix ls a ++ rest)%list.
Proof.
  revert a. induction ls as [| l0 ls IH]; intros a; simpl; [intros [] |].
  intros [-> | Hin]; [| now apply IH].
  destruct (fold_common_prefix_init ls (common_prefix a l)) as [r1 H1].
  destruct (common_prefix_r a l) as [r2 H2].
  exists (r1 ++ r2)%list. rewrite app_assoc, <- H1. exact H2.
Qed.

(** Every path handed to [commonpath] is relative to its result. *)
Lemma commonpath_relative (paths : list Path) (common_path p : Path) :
  commonpath paths = Some common_path -> In p paths ->
  exists rest,
    relative_to p common_path = Some (mkPath "" rest)
    /\ parts p = (parts common_path ++ rest)%list.
Proof.
  unfold commonpath. destruct paths as [| p0 ps]; [discriminate |].
  destruct (forallb (fun q => String.eqb (anchor q) (anchor p0)) ps) eqn:Ha;
    [| discriminate].
  intros [= <-] Hin. unfold relative_to. simpl.
  assert (Hanchor : anchor p = anchor p0).
  { destruct Hin as [<- | Hin]; [reflexivity |].
    rewrite forallb_forall in Ha. apply String.eqb_eq. now apply Ha. }
  assert (Hparts : exists rest,
             parts p = (fold_left common_prefix (map parts ps) (parts p0)
                        ++ rest)%list).
  { destruct Hin as [<- | Hin].
    - apply fold_common_prefix_init.
    - apply fold_common_prefix_each. now apply in_map. }
  destruct Hparts as [rest Hrest]. exists rest.
  destruct (string_dec (anchor p) (anchor p0)); [| contradiction].
  rewrite Hrest at 1. rewrite strip_prefix_app. auto.
Qed.

Section Clusters.
Variable common_path : Path.

Let key_of := cluster_key common_path.
Let add_item := cluster_add common_path.

Lemma get_clusters_fold (nodes : list (PackageDescriptor * Path))
  (acc : clusters_t) :
  (forall item, In item nodes -> relative_to (snd item) common_path <> None) ->
  fold_left
    (fun clusters (item : PackageDescriptor * Path) =>
       let (desc, path) := item in
       match clusters, relative_to path common_path with
       | Some cl, Some rel =>
           Some (dd_add Path_eq_dec PackageDescriptor_eq_dec rel desc cl)
       | _, _ => None
       end)
    nodes (Some acc)
  = Some (fold_left add_item nodes acc).
Proof.
  revert acc. induction nodes as [| [desc p] nodes IH]; intros acc H;
    simpl; [reflexivity |].
  unfold add_item at 2, cluster_add, cluster_key. simpl.
  destruct (relative_to p common_path) as [rel |] eqn:Hrel.
  - apply IH. intros item Hin. apply H. simpl. auto.
  - exfalso. apply (H (desc, p)); simpl; auto.
Qed.

Lemma clusters_members (nodes : list (PackageDescriptor * Path))
  (key : Path) (d : PackageDescriptor) :
  In d (dd_values Path_eq_dec key (fold_left add_item nodes []))
  <-> exists item, In item nodes /\ (key = key_of item /\ d = fst item).
Proof.
  rewrite (fold_left_observe
             (fun m => In d (dd_values Path_eq_dec key m))
             (fun item => key = key_of item /\ d = fst item)).
  - unfold dd_values. simpl. tauto.
  - intros s item _. apply dd_values_add.
Qed.

Lemma clusters_keys_NoDup (nodes : list (PackageDescriptor * Path)) :
  NoDup (map fst (fold_left add_item nodes [])).
Proof.
  apply (fold_left_invariant
           (fun m : clusters_t => NoDup (map fst m))).
  - intros s item _ Hs. now apply NoDup_keys_dict_set.
  - constructor.
Qed.
End Clusters.

Lemma get_nodes_selected (decorators : list PackageDecorator)
  (d : PackageDescriptor) :
  In d (map fst (get_nodes decorators))
  <-> In d (map descriptor (filter selected decorators)).
Proof.
  rewrite get_nodes_keys, in_map_iff. split.
  - intros [deco [Hin [Hsel <-]]]. exists deco. rewrite filter_In. auto.
  - intros [deco [<- Hin]]. apply filter_In in Hin. exists deco. tauto.
Qed.

Lemma In_flat_map_values {K V : Type}
  (K_dec : forall a b : K, {a = b} + {a <> b}) (m : list (K * list V))
  (v : V) :
  NoDup (map fst m) ->
  (In v (flat_map snd m) <-> exists k, In v (dd_values K_dec k m)).
Proof.
  intros Hnd. rewrite in_flat_map. unfold dd_values. split.
  - intros [[k vs] [Hin Hv]]. exists k.
    apply (dict_get_In K_dec) in Hin; [| exact Hnd]. now rewrite Hin.
  - intros [k Hv].
    destruct (dict_get K_dec k m) as [vs |] eqn:Hget; [| destruct Hv].
    apply (dict_get_In K_dec) in Hget; [| exact Hnd].
    exists (k, vs). auto.
Qed.

Lemma In_combine_seq {A : Type} (l : list A) (x : A) (start : nat) :
  In x l -> exists i, In (i, x) (combine (seq start (List.length l)) l).
Proof.
  revert start. induction l as [| a l IH]; intros start; simpl;
    [intros [] |].
  intros [-> | Hin].
  - exists start. now left.
  - destruct (IH (S start) Hin) as [i Hi]. exists i. now right.
Qed.

(** Every member of a cluster is declared by the clustered output. *)
Lemma output_clusters_complete (dup : bool) (clusters : clusters_t)
  (d : PackageDescriptor) :
  In d (flat_map snd clusters) ->
  exists indent, In (node_decl dup indent d) (output_clusters dup clusters).
Proof.
  rewrite in_flat_map. intros [[p descs] [Hin Hd]]. simpl in Hd.
  destruct (In_combine_seq clusters (p, descs) 0 Hin) as [i Hi].
  unfold output_clusters.
  destruct (string_dec (path_name p) "") as [Hp | Hp].
  - exists "  ". apply in_flat_map. exists (i, (p, descs)).
    split; [exact Hi |].
    destruct (string_dec (path_name p) ""); [| contradiction].
    now apply in_map.
  - exists "    ". apply in_flat_map. exists (i, (p, descs)).
    split; [exact Hi |].
    destruct (string_dec (path_name p) ""); [contradiction |].
    simpl. right. right. apply in_or_app. left. now apply in_map.
Qed.

Section SelectedClusters.
Variable decorators : list PackageDecorator.
Variable common_path : Path.
Hypothesis common :
  commonpath (map snd (get_nodes decorators)) = Some common_path.

Let nodes := get_nodes decorators.
Let clusters := fold_left (cluster_add common_path) nodes [].

Lemma nodes_relative (item : PackageDescriptor * Path) :
  In item nodes ->
  exists rest,
    relative_to (parent (path (fst item))) common_path
    = Some (mkPath "" rest)
    /\ snd item = parent (path (fst item)).
Proof.
  intros Hin.
  destruct (commonpath_relative _ _ (snd item) common) as [rest [Hr _]].
  - now apply in_map.
  - exists rest. rewrite <- (get_nodes_parent decorators item Hin). auto.
Qed.

Lemma get_clusters_commonpath :
  get_clusters nodes common_path = Some clusters.
Proof.
  apply get_clusters_fold. intros item Hin.
  destruct (nodes_relative item Hin) as [rest [Hr Hp]]. congruence.
Qed.

Lemma clusters_of_selected (key : Path) (d : PackageDescriptor) :
  In d (dd_values Path_eq_dec key clusters)
  <-> In d (map descriptor (filter selected decorators))
      /\ relative_to (parent (path d)) common_path = Some key.
Proof.
  unfold clusters. rewrite clusters_members, <- get_nodes_selected.
  fold nodes. split.
  - intros [item [Hin [-> ->]]].
    split; [now apply in_map |].
    destruct (nodes_relative item Hin) as [rest [Hr Hp]].
    unfold cluster_key. now rewrite Hp, Hr.
  - intros [Hin Hkey]. apply in_map_iff in Hin.
    destruct Hin as [item [<- Hin]]. exists item.
    split; [exact Hin |]. split; [| reflexivity].
    destruct (nodes_relative item Hin) as [rest [Hr Hp]].
    unfold cluster_key. now rewrite Hp, Hkey.
Qed.

Lemma clusters_union (d : PackageDescriptor) :
  In d (flat_map snd clusters)
  <-> In d (map descriptor (filter selected decorators)).
Proof.
  rewrite (In_flat_map_values Path_eq_dec)
    by apply clusters_keys_NoDup.
  split.
  - intros [key Hk]. now apply clusters_of_selected in Hk.
  - intros Hd.
    assert (Hin : In d (map fst nodes)) by (now apply get_nodes_selected).
    apply in_map_iff in Hin. destruct Hin as [item [<- Hin]].
    destruct (nodes_relative item Hin) as [rest [Hr Hp]].
    exists (mkPath "" rest). apply clusters_of_selected. auto.
Qed.

End SelectedClusters.



(** ** DOT rendering: the lines *)

Lemma node_decl_eq (dup : bool) (indent : string) (d : PackageDescriptor) :
  node_decl dup indent d
  = Node_decl indent (fst (get_node_data dup d)) (snd (get_node_data dup d)).
Proof.
  unfold node_decl. now destruct (get_node_data dup d).
Qed.

Lemma In_output_clusters (dup : bool) (clusters : clusters_t)
  (l : dot_line) :
  In l (output_clusters dup clusters) ->
  (exists d indent, In d (flat_map snd clusters) /\ l = node_decl dup indent d)
  \/ (exists i, l = Subgraph_open i)
  \/ (exists p, l = Subgraph_label p)
  \/ l = Subgraph_close.
Proof.
  unfold output_clusters. rewrite in_flat_map.
  intros [[i [p descs]] [Hin Hl]].
  apply in_combine_r in Hin.
  assert (Hdescs : forall d, In d descs -> In d (flat_map snd clusters)).
  { intros d Hd. apply in_flat_map. exists (p, descs). auto. }
  destruct (string_dec (path_name p) "").
  - apply in_map_iff in Hl. destruct Hl as [d [<- Hd]]. left. eauto.
  - simpl in Hl. destruct Hl as [<- | [<- | Hl]]; [eauto | eauto |].
    apply in_app_iff in Hl. destruct Hl as [Hl | [<- | []]]; [| auto].
    apply in_map_iff in Hl. destruct Hl as [d [<- Hd]]. left. eauto.
Qed.

(** The node part of the output never fails, and its declarations are
    those of selected descriptors. *)
Lemma output_nodes_shape (cluster : bool)
  (decorators : list PackageDecorator) (dup : bool) :
  exists node_lines,
    output_nodes cluster (commonpath (map snd (get_nodes decorators))) dup
      (get_nodes decorators) = Some node_lines
    /\ forall l, In l node_lines ->
         (exists d indent,
            In d (map descriptor (filter selected decorators))
            /\ l = node_decl dup indent d)
         \/ (exists i, l = Subgraph_open i)
         \/ (exists p, l = Subgraph_label p)
         \/ l = Subgraph_close.
Proof.
  unfold output_nodes.
  destruct (negb cluster) eqn:Hc;
    [| destruct (commonpath (map snd (get_nodes decorators)))
         as [cp |] eqn:Hcp].
  1, 3: (eexists; split; [reflexivity |];
         intros l Hl; apply in_map_iff in Hl;
         destruct Hl as [item [<- Hin]]; left;
         exists (fst item), "  "; split; [| reflexivity];
         apply get_nodes_selected; now apply in_map).
  rewrite (get_clusters_commonpath decorators cp Hcp).
  eexists. split; [reflexivity |].
  intros l Hl. apply In_output_clusters in Hl.
  destruct Hl as [[d [indent [Hd ->]]] | Hl]; [left | right; exact Hl].
  exists d, indent. split; [| reflexivity].
  apply (In_flat_map_values Path_eq_dec) in Hd;
    [| apply clusters_keys_NoDup].
  destruct Hd as [key Hd]. apply clusters_members in Hd.
  destruct Hd as [item [Hin [_ ->]]].
  apply get_nodes_selected. now apply in_map.
Qed.

Lemma output_edges_two_passes (dup : bool) (bn : by_name)
  (direct indirect : edges) :
  output_edges dup bn direct indirect
  = (edge_lines dup bn "" direct ++ edge_lines dup bn dashed indirect)%list.
Proof.
  unfold output_edges. simpl. now rewrite app_nil_r.
Qed.

Lemma In_edge_lines (decorators : list PackageDecorator) (dup : bool)
  (style : string) (es : edges) (l : dot_line) :
  In l (edge_lines dup (get_decorators_by_name decorators) style es)
  <-> exists src tgt categories inst,
        In ((src, tgt), categories) es
        /\ In inst decorators /\ name (descriptor inst) = tgt
        /\ l = Edge_decl (fst (get_node_data dup src))
                 (fst (get_node_data dup (descriptor inst)))
                 (edge_colors categories) style.
Proof.
  unfold edge_lines. rewrite in_flat_map. split.
  - intros [[[src tgt] categories] [Hin Hl]].
    apply in_map_iff in Hl. destruct Hl as [inst [<- Hinst]].
    apply In_named in Hinst. destruct Hinst as [Hinst Hname].
    exists src, tgt, categories, inst. auto.
  - intros [src [tgt [categories [inst [Hin [Hinst [Hname ->]]]]]]].
    exists ((src, tgt), categories). split; [exact Hin |].
    apply in_map_iff. exists inst. split; [reflexivity |].
    apply In_named. auto.
Qed.

Lemma edge_colors_spec (categories : list string) :
  edge_colors categories = spec_edge_colors categories.
Proof.
  unfold edge_colors, spec_edge_colors, color_mapping. simpl.
  destruct (str_mem "build" categories), (str_mem "run" categories),
    (str_mem "test" categories); reflexivity.
Qed.

Lemma topological_graph_dot_lines (cluster : bool)
  (decorators : list PackageDecorator) :
  let dup := get_has_duplicate_names (get_selected_pkg_names decorators) in
  let bn := get_decorators_by_name decorators in
  exists node_lines,
    topological_graph_dot cluster decorators
    = Some ([Digraph_open] ++ node_lines
            ++ edge_lines dup bn "" (direct_edges_of decorators)
            ++ edge_lines dup bn dashed (indirect_edges_of decorators)
            ++ [Digraph_close])%list
    /\ forall l, In l node_lines ->
         (exists d indent,
            In d (map descriptor (filter selected decorators))
            /\ l = node_decl dup indent d)
         \/ (exists i, l = Subgraph_open i)
         \/ (exists p, l = Subgraph_label p)
         \/ l = Subgraph_close.
Proof.
  intros dup bn.
  destruct (output_nodes_shape cluster decorators dup)
    as [node_lines [Hnodes Hshape]].
  exists node_lines. split; [| exact Hshape].
  unfold topological_graph_dot. fold dup bn. rewrite Hnodes.
  rewrite output_edges_two_passes, <- app_assoc. reflexivity.
Qed.

(** Every selected descriptor is declared, clustered or not. *)
Lemma output_nodes_complete (cluster : bool)
  (decorators : list PackageDecorator) (dup : bool)
  (node_lines : list dot_line) (d : PackageDescriptor) :
  output_nodes cluster (commonpath (map snd (get_nodes decorators))) dup
    (get_nodes decorators) = Some node_lines ->
  In d (map descriptor (filter selected decorators)) ->
  exists indent, In (node_decl dup indent d) node_lines.
Proof.
  unfold output_nodes. intros Hout Hd.
  assert (Hplain : exists indent,
             In (node_decl dup indent d)
               (map (fun item => node_decl dup "  " (fst item))
                  (get_nodes decorators))).
  { exists "  ". apply get_nodes_selected in Hd.
    apply in_map_iff in Hd. destruct Hd as [item [<- Hin]].
    apply in_map_iff. exists item. auto. }
  destruct (negb cluster);
    [injection Hout as <-; exact Hplain |].
  destruct (commonpath (map snd (get_nodes decorators))) as [cp |] eqn:Hcp;
    [| injection Hout as <-; exact Hplain].
  rewrite (get_clusters_commonpath decorators cp Hcp) in Hout.
  injection Hout as <-. apply output_clusters_complete.
  now apply clusters_union.
Qed.

Lemma edge_target_selected (decorators : list PackageDecorator)
  (src : PackageDescriptor) (tgt : string) (categories : list string) :
  In ((src, tgt), categories) (direct_edges_of decorators)
  \/ In ((src, tgt), categories) (indirect_edges_of decorators) ->
  In tgt (get_selected_pkg_names decorators).
Proof.
  intros [Hin | Hin].
  - assert (Hkey : edge_in (src, tgt) (direct_edges_of decorators) = true).
    { apply dict_contains_In. apply in_map_iff.
      exists ((src, tgt), categories). auto. }
    apply direct_edge_in in Hkey. destruct Hkey as [c Hc].
    apply direct_edge_categories in Hc.
    destruct Hc as [deco [deps Hc]]. decompose [and] Hc. assumption.
  - assert (Hkey : edge_in (src, tgt) (indirect_edges_of decorators) = true).
    { apply dict_contains_In. apply in_map_iff.
      exists ((src, tgt), categories). auto. }
    apply indirect_edge_in in Hkey. destruct Hkey as [c Hc].
    apply indirect_edge_categories in Hc.
    destruct Hc as [deco [deps [dep [inst Hc]]]].
    decompose [and] Hc. assumption.
Qed.

(** When the selected names are pairwise different, tokens are names and
    the end of every edge line is a declared token, whichever decorator
    of that name the line was written for. *)
Lemma endpoints_declared_without_duplicates (cluster : bool)
  (decorators : list PackageDecorator) (lines : list dot_line) :
  NoDup (get_selected_pkg_names decorators) ->
  topological_graph_dot cluster decorators = Some lines ->
  forall start_name end_name colors style,
    In (Edge_decl start_name end_name colors style) lines ->
    exists indent attributes,
      In (Node_decl indent end_name attributes) lines.
Proof.
  intros Hnd Hlines start_name end_name colors style Hedge.
  apply has_duplicate_names_false in Hnd.
  unfold topological_graph_dot in Hlines. rewrite Hnd in Hlines.
  destruct (output_nodes cluster _ false (get_nodes decorators))
    as [node_lines |] eqn:Hnodes; [| discriminate Hlines].
  injection Hlines as <-.
  assert (Hname : In end_name (get_selected_pkg_names decorators)).
  { simpl in Hedge. destruct Hedge as [Hedge | Hedge];
      [discriminate Hedge |].
    rewrite output_edges_two_passes, !in_app_iff in Hedge.
    destruct Hedge as [Hedge | [[Hedge | Hedge] | Hedge]].
    - destruct (output_nodes_shape cluster decorators false)
        as [nl [Hnl Hshape]].
      rewrite Hnodes in Hnl. injection Hnl as <-.
      apply Hshape in Hedge.
      destruct Hedge as [[d [ind [_ Hl]]] | [[i Hl] | [[p Hl] | Hl]]];
        try rewrite node_decl_eq in Hl; discriminate Hl.
    - apply In_edge_lines in Hedge.
      destruct Hedge as [src [tgt [cats [inst [He [_ [Hn Hl]]]]]]].
      injection Hl as _ -> _ _. simpl. rewrite Hn.
      apply (edge_target_selected decorators src tgt cats). now left.
    - apply In_edge_lines in Hedge.
      destruct Hedge as [src [tgt [cats [inst [He [_ [Hn Hl]]]]]]].
      injection Hl as _ -> _ _. simpl. rewrite Hn.
      apply (edge_target_selected decorators src tgt cats). now right.
    - destruct Hedge as [Hl | []]. discriminate Hl. }
  apply In_selected_pkg_names in Hname.
  destruct Hname as [m [Hin [Hsel Hn]]].
  destruct (output_nodes_complete cluster decorators false node_lines
              (descriptor m) Hnodes) as [indent Hdecl].
  { apply in_map. apply filter_In. auto. }
  rewrite node_decl_eq in Hdecl. simpl in Hdecl. rewrite Hn in Hdecl.
  exists indent, "". simpl. right. apply in_or_app. left. exact Hdecl.
Qed.

(** C7.  The output is the opening line, the node part, the lines of the
    direct edges, then the lines of the indirect edges, then the closing
    line.  A line of the first edge part carries no style, a line of the
    second the dashed style.  There is one edge line for every stored
    edge and every decorator of the full list bearing the target name,
    from the token of the source descriptor to the token of that
    decorator's descriptor, coloured with the colours of [build], [run] and
    [test], in this order, for the categories present, joined by [":"]. *)
Theorem C7_dot_edge_emission (topological_graph_dot_cluster : bool)
  (decorators : list PackageDecorator) :
  let dup := get_has_duplicate_names (get_selected_pkg_names decorators) in
  exists node_lines solid_lines dashed_lines,
    topological_graph_dot topological_graph_dot_cluster decorators
    = Some ([Digraph_open] ++ node_lines ++ solid_lines ++ dashed_lines
            ++ [Digraph_close])%list
    /\ (forall l, In l node_lines ->
          forall s e c st, l <> Edge_decl s e c st)
    /\ (forall l,
          In l solid_lines
          <-> exists src tgt categories inst,
                In ((src, tgt), categories) (direct_edges_of decorators)
                /\ In inst decorators /\ name (descriptor inst) = tgt
                /\ l = Edge_decl (fst (get_node_data dup src))
                         (fst (get_node_data dup (descriptor inst)))
                         (spec_edge_colors categories) "")
    /\ (forall l,
          In l dashed_lines
          <-> exists src tgt categories inst,
                In ((src, tgt), categories) (indirect_edges_of decorators)
                /\ In inst decorators /\ name (descriptor inst) = tgt
                /\ l = Edge_decl (fst (get_node_data dup src))
                         (fst (get_node_data dup (descriptor inst)))
                         (spec_edge_colors categories) dashed)
    /\ dashed <> "".
Proof.
  intros dup.
  destruct (topological_graph_dot_lines topological_graph_dot_cluster
              decorators) as [node_lines [Hlines Hshape]].
  exists node_lines.
  exists (edge_lines dup (get_decorators_by_name decorators) ""
            (direct_edges_of decorators)).
  exists (edge_lines dup (get_decorators_by_name decorators) dashed
            (indirect_edges_of decorators)).
  split; [exact Hlines |]. split; [| split; [| split]].
  - intros l Hl s e c st ->. apply Hshape in Hl.
    destruct Hl as [[d [indent [_ Hl]]] | [[i Hl] | [[p Hl] | Hl]]];
      try discriminate Hl.
    rewrite node_decl_eq in Hl. discriminate Hl.
  - intros l. rewrite In_edge_lines.
    split; intros [src [tgt [categories [inst H]]]];
      exists src, tgt, categories, inst;
      [rewrite <- edge_colors_spec | rewrite edge_colors_spec]; exact H.
  - intros l. rewrite In_edge_lines.
    split; intros [src [tgt [categories [inst H]]]];
      exists src, tgt, categories, inst;
      [rewrite <- edge_colors_spec | rewrite edge_colors_spec]; exact H.
  - discriminate.
Qed.

(** C10.  Every stored edge gets a line to every decorator of the full
    list that bears the target name, selected or not, while every node
    declaration is that of a selected descriptor.  In [Samples.overlay],
    where a selected and an unselected package are both named [lib] and the
    selected [app] depends on [lib], the output has an edge line whose end
    token is declared by no node line. *)
Theorem C10_edge_to_undeclared_node :
  (forall cluster decorators,
     let dup := get_has_duplicate_names (get_selected_pkg_names decorators) in
     exists lines,
       topological_graph_dot cluster decorators = Some lines
       /\ (forall src tgt categories inst,
             In ((src, tgt), categories) (direct_edges_of decorators) ->
             In inst decorators -> name (descriptor inst) = tgt ->
             In (Edge_decl (fst (get_node_data dup src))
                   (fst (get_node_data dup (descriptor inst)))
                   (edge_colors categories) "") lines)
       /\ (forall src tgt categories inst,
             In ((src, tgt), categories) (indirect_edges_of decorators) ->
             In inst decorators -> name (descriptor inst) = tgt ->
             In (Edge_decl (fst (get_node_data dup src))
                   (fst (get_node_data dup (descriptor inst)))
                   (edge_colors categories) dashed) lines)
       /\ (forall indent node_name attributes,
             In (Node_decl indent node_name attributes) lines ->
             exists d,
               In d (map descriptor (filter selected decorators))
               /\ node_name = fst (get_node_data dup d)))
  /\ (exists decorators sel unsel src lines start_name end_name colors style,
        In sel decorators /\ selected sel = true
        /\ In unsel decorators /\ selected unsel = false
        /\ name (descriptor sel) = name (descriptor unsel)
        /\ In src decorators /\ selected src = true
        /\ In (name (descriptor sel)) (get_dependencies (descriptor src))
        /\ topological_graph_dot false decorators = Some lines
        /\ In (Edge_decl start_name end_name colors style) lines
        /\ forall indent node_name attributes,
             In (Node_decl indent node_name attributes) lines ->
             node_name <> end_name).
Proof.
  split.
  - intros cluster decorators dup.
    destruct (topological_graph_dot_lines cluster decorators)
      as [node_lines [Hlines Hshape]].
    eexists. split; [exact Hlines |]. fold dup.
    split; [| split].
    + intros src tgt categories inst Hedge Hinst Hname.
      simpl. right. rewrite !in_app_iff. right. left.
      apply In_edge_lines. exists src, tgt, categories, inst. auto.
    + intros src tgt categories inst Hedge Hinst Hname.
      simpl. right. rewrite !in_app_iff. right. right. left.
      apply In_edge_lines. exists src, tgt, categories, inst. auto.
    + intros indent node_name attributes Hin.
      simpl in Hin. destruct Hin as [Hin | Hin]; [discriminate Hin |].
      rewrite !in_app_iff in Hin.
      destruct Hin as [Hin | [Hin | [Hin | Hin]]].
      * apply Hshape in Hin.
        destruct Hin as [[d [ind [Hd Hl]]] | [[i Hl] | [[p Hl] | Hl]]];
          try discriminate Hl.
        rewrite node_decl_eq in Hl. injection Hl as _ -> _. eauto.
      * apply In_edge_lines in Hin.
        destruct Hin as [? [? [? [? [_ [_ [_ Hl]]]]]]]. discriminate Hl.
      * apply In_edge_lines in Hin.
        destruct Hin as [? [? [? [? [_ [_ [_ Hl]]]]]]]. discriminate Hl.
      * destruct Hin as [Hl | []]. discriminate Hl.
  - exists Samples.overlay.
    exists (mkDecorator Samples.lib_1 true []).
    exists (mkDecorator Samples.lib_2 false []).
    exists (mkDecorator Samples.app true ["lib"]).
    eexists. exists "app_24", "lib_22", "red", "".
    do 8 (split; [simpl; auto 10 |]).
    split; [vm_compute; reflexivity |].
    split; [simpl; auto 10 |].
    intros indent node_name attributes Hin.
    repeat (destruct Hin as [Hin | Hin];
            [try discriminate Hin; injection Hin as _ <- _; discriminate |]).
    destruct Hin.
Qed.

(** ** The claims at the sample inputs *)

Lemma C1_indirect_edge_collector_witness :
  In "run" (edge_categories (Samples.mid, "base")
              (indirect_edges_of Samples.chain))
  /\ edge_in (Samples.mid, "base") (indirect_edges_of Samples.chain) = true.
Proof.
  destruct (C1_indirect_edge_collector Samples.chain Samples.mid "base")
    as [Hcat Hkey].
  assert (H : In "run" (edge_categories (Samples.mid, "base")
                          (indirect_edges_of Samples.chain))).
  { apply Hcat.
    exists (mkDecorator Samples.mid true ["hidden"; "base"]).
    exists ["hidden"; "nowhere"], "hidden".
    exists (mkDecorator Samples.hidden false ["base"]).
    repeat split; try (simpl; auto; fail).
    simpl. intros [H | [H | [H | []]]]; discriminate H. }
  split; [exact H | apply Hkey; eauto].
Defined.


Lemma C7_dot_edge_emission_witness :
  exists lines,
    topological_graph_dot false Samples.chain = Some lines
    /\ In (Edge_decl "mid" "base" "red" dashed) lines.
Proof.
  destruct (C7_dot_edge_emission false Samples.chain)
    as [node_lines [solid_lines [dashed_lines [Hlines [_ [_ [Hdashed _]]]]]]].
  eexists. split; [exact Hlines |].
  simpl. right. rewrite !in_app_iff. right. right. left.
  apply Hdashed.
  exists Samples.mid, "base", ["run"], (mkDecorator Samples.base true []).
  repeat split; vm_compute; auto.
Defined.

Lemma C8_matrix_square_with_plus_diagonal_witness :
  List.length (matrix_lines Samples.chain_closure Samples.chain) = 3
  /\ cell Samples.chain_closure Samples.chain 1 1 = Some "+"%char.
Proof.
  destruct (C8_matrix_square_with_plus_diagonal
              Samples.chain_closure Samples.chain) as [Hlen Hrow].
  split; [exact Hlen |].
  destruct (Hrow 1 ltac:(simpl; lia)) as [prefix [cells H]].
  decompose [and] H. assumption.
Defined.

(** * Further properties of the verb *)

(** ** Edge dictionaries *)

Lemma dict_get_Some_In {K W : Type}
  (K_dec : forall a b : K, {a = b} + {a <> b}) (k : K) (w : W)
  (m : list (K * W)) :
  dict_get K_dec k m = Some w -> exists k', k' = k /\ In (k', w) m.
Proof.
  induction m as [| [k0 w0] m IH]; simpl; [discriminate |].
  destruct (K_dec k k0) as [-> | Hk].
  - intros [= ->]. exists k0. auto.
  - intros H. destruct (IH H) as [k' [Hk' Hin]]. exists k'. auto.
Qed.

(** A dictionary of sets as the collectors keep it: no key twice, no
    element twice in a set, no empty set. *)
Lemma dd_add_well_formed {K V : Type}
  (K_dec : forall a b : K, {a = b} + {a <> b})
  (V_dec : forall a b : V, {a = b} + {a <> b})
  (k : K) (v : V) (m : list (K * list V)) :
  (NoDup (map fst m)
   /\ forall k' vs, In (k', vs) m -> NoDup vs /\ vs <> []) ->
  NoDup (map fst (dd_add K_dec V_dec k v m))
  /\ forall k' vs, In (k', vs) (dd_add K_dec V_dec k v m) ->
       NoDup vs /\ vs <> [].
Proof.
  intros [Hkeys Hsets]. unfold dd_add. split.
  - now apply NoDup_keys_dict_set.
  - intros k' vs Hin. apply In_dict_set in Hin.
    destruct Hin as [Hin | Hin]; [now apply (Hsets k') |].
    simpl in Hin. subst vs. split.
    + apply NoDup_set_add. unfold dd_values.
      destruct (dict_get K_dec k m) as [s |] eqn:Hget; [| constructor].
      apply dict_get_Some_In in Hget. destruct Hget as [k0 [_ Hs]].
      now apply (Hsets k0).
    + intros Hnil.
      assert (Hv : In v (set_add V_dec v (dd_values K_dec k m)))
        by (apply In_set_add; auto).
      rewrite Hnil in Hv. destruct Hv.
Qed.

Section CollectorInvariant.
Variable inv : edges -> Prop.
Hypothesis inv_add : forall k c m, inv m -> inv (edge_add k c m).

Lemma collect_direct_edges_invariant (decorators : list PackageDecorator)
  (names : list string) :
  inv [] -> inv (collect_direct_edges decorators names).
Proof.
  intros H0. unfold collect_direct_edges.
  apply fold_left_invariant; [| exact H0].
  intros s deco _ Hs. destruct (negb (selected deco)); [exact Hs |].
  apply fold_left_invariant; [| exact Hs].
  intros s' [category deps] _ Hs'.
  apply fold_left_invariant; [| exact Hs'].
  intros s'' dep _ Hs''.
  destruct (negb (str_mem dep names)); [exact Hs'' | now apply inv_add].
Qed.

Lemma collect_indirect_edges_invariant (decorators : list PackageDecorator)
  (names : list string) (bn : by_name) (direct : edges) :
  inv [] -> inv (collect_indirect_edges decorators names bn direct).
Proof.
  intros H0. unfold collect_indirect_edges.
  apply fold_left_invariant; [| exact H0].
  intros s deco _ Hs. destruct (negb (selected deco)); [exact Hs |].
  apply fold_left_invariant; [| exact Hs].
  intros s' [category deps] _ Hs'.
  apply fold_left_invariant; [| exact Hs'].
  intros s'' dep _ Hs''.
  destruct (str_mem dep names); [exact Hs'' |].
  destruct (negb (dict_contains string_dec dep bn)); [exact Hs'' |].
  apply fold_left_invariant; [| exact Hs''].
  intros s3 rdep _ Hs3.
  destruct (negb (str_mem rdep names)); [exact Hs3 |].
  destruct (edge_in (descriptor deco, rdep) direct);
    [exact Hs3 | now apply inv_add].
Qed.
End CollectorInvariant.

Lemma edge_entry_categories (es : edges) (k : edge_key)
  (categories : list string) :
  NoDup (map fst es) -> In (k, categories) es ->
  edge_categories k es = categories /\ edge_in k es = true.
Proof.
  intros Hnd Hin. unfold edge_categories, edge_in, dd_values, dict_contains.
  apply (dict_get_In edge_key_eq_dec) in Hin; [| exact Hnd].
  now rewrite Hin.
Qed.

Lemma direct_edge_key (decorators : list PackageDecorator)
  (d : PackageDescriptor) (t : string) :
  edge_in (d, t) (direct_edges_of decorators) = true
  <-> (exists deco,
         In deco decorators /\ selected deco = true /\ descriptor deco = d)
      /\ In t (get_dependencies d)
      /\ In t (get_selected_pkg_names decorators).
Proof.
  rewrite direct_edge_in. split.
  - intros [c Hc]. apply direct_edge_categories in Hc.
    destruct Hc as [deco [deps [Hin [Hsel [Hd [Hitem [Ht Hs]]]]]]].
    split; [eauto |]. split; [| exact Hs].
    unfold get_dependencies. apply in_flat_map. exists (c, deps). auto.
  - intros [[deco [Hin [Hsel Hd]]] [Ht Hs]].
    unfold get_dependencies in Ht. apply in_flat_map in Ht.
    destruct Ht as [[c deps] [Hitem Ht]]. exists c.
    apply direct_edge_categories. exists deco, deps. auto 7.
Qed.

(** X1.  The direct-edge collector stores category [c] under the key
    (descriptor [d], name [t]) exactly when [d] is the descriptor of a
    selected decorator that lists [t] under [c] and [t] is the name of a
    selected decorator; the key is present exactly when [d] lists [t] under
    any category. *)
Theorem X1_direct_edge_collector (decorators : list PackageDecorator)
  (d : PackageDescriptor) (t : string) :
  (forall c,
     In c (edge_categories (d, t) (direct_edges_of decorators))
     <-> exists deco deps,
           In deco decorators /\ selected deco = true /\
           descriptor deco = d /\
           In (c, deps) (dependencies d) /\ In t deps /\
           In t (get_selected_pkg_names decorators))
  /\ (edge_in (d, t) (direct_edges_of decorators) = true
      <-> (exists deco,
             In deco decorators /\ selected deco = true /\
             descriptor deco = d)
          /\ In t (get_dependencies d)
          /\ In t (get_selected_pkg_names decorators)).
Proof.
  split; [intros c; apply direct_edge_categories | apply direct_edge_key].
Qed.

Lemma X1_direct_edge_collector_witness :
  In "build" (edge_categories (Samples.top, "mid")
                (direct_edges_of Samples.chain))
  /\ edge_in (Samples.mid, "hidden") (direct_edges_of Samples.chain) = false.
Proof.
  destruct (X1_direct_edge_collector Samples.chain Samples.top "mid")
    as [Hcat _].
  split.
  - apply Hcat. exists (mkDecorator Samples.top true []), ["mid"].
    repeat split; simpl; auto.
  - destruct (X1_direct_edge_collector Samples.chain Samples.mid "hidden")
      as [_ Hkey].
    destruct (edge_in (Samples.mid, "hidden") (direct_edges_of Samples.chain));
      [| reflexivity].
    destruct (proj1 Hkey eq_refl) as [_ [_ Hs]].
    simpl in Hs. destruct Hs as [Hs | [Hs | [Hs | []]]]; discriminate Hs.
Defined.

Lemma edge_dictionaries_well_formed
  (decorators : list PackageDecorator) (es : edges) :
  es = direct_edges_of decorators \/ es = indirect_edges_of decorators ->
  NoDup (map fst es)
  /\ forall k categories,
       In (k, categories) es -> NoDup categories /\ categories <> [].
Proof.
  intros [-> | ->].
  - unfold direct_edges_of.
    apply (collect_direct_edges_invariant
             (fun m => NoDup (map fst m)
                       /\ forall k cs, In (k, cs) m -> NoDup cs /\ cs <> [])).
    + intros k c m. apply dd_add_well_formed.
    + split; [constructor | intros k cs []].
  - unfold indirect_edges_of.
    apply (collect_indirect_edges_invariant
             (fun m => NoDup (map fst m)
                       /\ forall k cs, In (k, cs) m -> NoDup cs /\ cs <> [])).
    + intros k c m. apply dd_add_well_formed.
    + split; [constructor | intros k cs []].
Qed.

(** X2.  Both edge dictionaries are well formed: no key occurs twice, and
    the category set of every entry is without repetition and not empty;
    what is stored under a key is the category set of its one entry. *)
Theorem X2_edge_dictionaries_well_formed
  (decorators : list PackageDecorator) (es : edges) :
  es = direct_edges_of decorators \/ es = indirect_edges_of decorators ->
  NoDup (map fst es)
  /\ forall k categories,
       In (k, categories) es ->
       NoDup categories /\ categories <> []
       /\ edge_categories k es = categories.
Proof.
  intros Hes.
  destruct (edge_dictionaries_well_formed decorators es Hes)
    as [Hkeys Hsets].
  split; [exact Hkeys |]. intros k categories Hin.
  destruct (Hsets k categories Hin) as [Hnd Hne].
  destruct (edge_entry_categories es k categories Hkeys Hin) as [Hc _].
  auto.
Qed.

Lemma X2_edge_dictionaries_well_formed_witness :
  NoDup (map fst (indirect_edges_of Samples.chain))
  /\ forall k categories,
       In (k, categories) (indirect_edges_of Samples.chain) ->
       NoDup categories /\ categories <> []
       /\ edge_categories k (indirect_edges_of Samples.chain) = categories.
Proof.
  apply (X2_edge_dictionaries_well_formed Samples.chain). right. reflexivity.
Defined.

Lemma edge_key_present (es : edges) (k : edge_key)
  (categories : list string) :
  In (k, categories) es -> edge_in k es = true.
Proof.
  intros Hin. apply dict_contains_In. apply in_map_iff.
  exists (k, categories). auto.
Qed.

(** X3.  An entry of either edge dictionary joins selected packages only:
    its source is the descriptor of a selected decorator, its target the
    name of a selected decorator, and each of its categories is one under
    which the source lists dependencies. *)
Theorem X3_edges_join_selected_packages
  (decorators : list PackageDecorator) (es : edges)
  (src : PackageDescriptor) (tgt : string) (categories : list string) :
  es = direct_edges_of decorators \/ es = indirect_edges_of decorators ->
  In ((src, tgt), categories) es ->
  In src (map descriptor (filter selected decorators))
  /\ In tgt (get_selected_pkg_names decorators)
  /\ forall c, In c categories -> exists deps, In (c, deps) (dependencies src).
Proof.
  intros Hes Hin.
  destruct (edge_dictionaries_well_formed decorators es Hes)
    as [Hkeys Hsets].
  destruct (Hsets _ _ Hin) as [_ Hne].
  destruct (edge_entry_categories es _ _ Hkeys Hin) as [Hcats _].
  assert (Hall : forall c, In c categories ->
            In src (map descriptor (filter selected decorators))
            /\ In tgt (get_selected_pkg_names decorators)
            /\ exists deps, In (c, deps) (dependencies src)).
  { intros c Hc. rewrite <- Hcats in Hc. destruct Hes as [-> | ->].
    - apply direct_edge_categories in Hc.
      destruct Hc as [deco [deps [Hd [Hsel [<- [Hitem [_ Hs]]]]]]].
      split; [| split; [exact Hs | eauto]].
      apply in_map. apply filter_In. auto.
    - apply indirect_edge_categories in Hc.
      destruct Hc as [deco [deps [dep [inst Hc]]]].
      destruct Hc as [Hd [Hsel [<- [Hitem [_ [_ [_ [_ [_ [Hs _]]]]]]]]]].
      split; [| split; [exact Hs | eauto]].
      apply in_map. apply filter_In. auto. }
  destruct categories as [| c0 cs]; [congruence |].
  destruct (Hall c0 (or_introl eq_refl)) as [Hsrc [Htgt _]].
  split; [exact Hsrc |]. split; [exact Htgt |].
  intros c Hc. now apply Hall.
Qed.

Lemma X3_edges_join_selected_packages_witness :
  In Samples.mid (map descriptor (filter selected Samples.chain))
  /\ In "base" (get_selected_pkg_names Samples.chain).
Proof.
  destruct (X3_edges_join_selected_packages Samples.chain
              (indirect_edges_of Samples.chain) Samples.mid "base" ["run"]
              (or_intror eq_refl)) as [Hsrc [Htgt _]].
  - vm_compute. auto.
  - split; [exact Hsrc | exact Htgt].
Defined.

(** X4.  When every decorator is selected there is no indirect edge: the
    DOT output has no dashed line. *)
Theorem X4_all_selected_no_indirect_edge
  (decorators : list PackageDecorator) :
  (forall deco, In deco decorators -> selected deco = true) ->
  indirect_edges_of decorators = []
  /\ forall cluster,
       edge_lines
         (get_has_duplicate_names (get_selected_pkg_names decorators))
         (get_decorators_by_name decorators) dashed
         (indirect_edges_of decorators) = []
       /\ exists node_lines,
            topological_graph_dot cluster decorators
            = Some ([Digraph_open] ++ node_lines
                    ++ edge_lines
                         (get_has_duplicate_names
                            (get_selected_pkg_names decorators))
                         (get_decorators_by_name decorators) ""
                         (direct_edges_of decorators)
                    ++ [Digraph_close])%list.
Proof.
  intros Hall.
  assert (Hnone : indirect_edges_of decorators = []).
  { destruct (indirect_edges_of decorators) as [| [[d t] cs] es] eqn:Hes;
      [reflexivity |].
    assert (Hkey : edge_in (d, t) (indirect_edges_of decorators) = true).
    { rewrite Hes. apply (edge_key_present _ _ cs). now left. }
    apply indirect_edge_in in Hkey. destruct Hkey as [c Hc].
    apply indirect_edge_categories in Hc.
    destruct Hc as [deco [deps [dep [inst Hc]]]].
    destruct Hc as [_ [_ [_ [_ [_ [Hns [Hinst [Hname _]]]]]]]].
    exfalso. apply Hns. apply In_selected_pkg_names.
    exists inst. auto. }
  split; [exact Hnone |]. intros cluster. rewrite Hnone.
  split; [reflexivity |].
  destruct (topological_graph_dot_lines cluster decorators)
    as [node_lines [Hlines _]].
  exists node_lines. rewrite Hlines, Hnone. reflexivity.
Qed.

Lemma X4_all_selected_no_indirect_edge_witness :
  indirect_edges_of Samples.two_nodes = [].
Proof.
  apply (X4_all_selected_no_indirect_edge Samples.two_nodes).
  simpl. intros deco [<- | [<- | []]]; reflexivity.
Defined.

(** ** The index by name, the duplicate test, the node order *)

Lemma dd_values_dd_add {K V : Type}
  (K_dec : forall a b : K, {a = b} + {a <> b})
  (V_dec : forall a b : V, {a = b} + {a <> b})
  (k k' : K) (v : V) (m : list (K * list V)) :
  dd_values K_dec k' (dd_add K_dec V_dec k v m)
  = if K_dec k' k then set_add V_dec v (dd_values K_dec k' m)
    else dd_values K_dec k' m.
Proof.
  unfold dd_add, dd_values at 1. rewrite dict_get_set.
  destruct (K_dec k' k) as [-> | Hk]; reflexivity.
Qed.

Lemma named_fold (n : string) (l : list PackageDecorator) (m : by_name) :
  NoDup (dd_values string_dec n m
         ++ filter (fun d => String.eqb (name (descriptor d)) n) l) ->
  dd_values string_dec n
    (fold_left
       (fun decorators_by_name deco =>
          dd_add string_dec PackageDecorator_eq_dec
            (name (descriptor deco)) deco decorators_by_name)
       l m)
  = (dd_values string_dec n m
     ++ filter (fun d => String.eqb (name (descriptor d)) n) l)%list.
Proof.
  revert m. induction l as [| deco l IH]; intros m Hnd; simpl.
  - now rewrite app_nil_r.
  - simpl in Hnd.
    assert (Hstep : dd_values string_dec n
                      (dd_add string_dec PackageDecorator_eq_dec
                         (name (descriptor deco)) deco m)
                    = (dd_values string_dec n m
                       ++ (if String.eqb (name (descriptor deco)) n
                           then [deco] else []))%list).
    { rewrite dd_values_dd_add.
      destruct (string_dec n (name (descriptor deco))) as [-> | Hn].
      - rewrite String.eqb_refl. unfold set_add.
        rewrite String.eqb_refl in Hnd.
        destruct (in_dec PackageDecorator_eq_dec deco
                    (dd_values string_dec (name (descriptor deco)) m))
          as [Hin | Hin]; [| reflexivity].
        exfalso. apply NoDup_remove_2 in Hnd. apply Hnd.
        apply in_or_app. auto.
      - assert (Hf : String.eqb (name (descriptor deco)) n = false)
          by (apply String.eqb_neq; congruence).
        rewrite Hf. now rewrite app_nil_r. }
    rewrite IH; rewrite Hstep.
    + destruct (String.eqb (name (descriptor deco)) n);
        [now rewrite <- app_assoc | now rewrite app_nil_r].
    + destruct (String.eqb (name (descriptor deco)) n);
        [now rewrite <- app_assoc | now rewrite app_nil_r].
Qed.

Lemma NoDup_filter {A : Type} (f : A -> bool) (l : list A) :
  NoDup l -> NoDup (filter f l).
Proof.
  induction 1 as [| a l Hnot Hnd IH]; simpl; [constructor |].
  destruct (f a); [| exact IH].
  constructor; [| exact IH]. intros Hin. apply Hnot.
  apply filter_In in Hin. tauto.
Qed.

Lemma named_filter (decorators : list PackageDecorator) (n : string) :
  NoDup decorators ->
  named n (get_decorators_by_name decorators)
  = filter (fun d => String.eqb (name (descriptor d)) n) decorators.
Proof.
  intros Hnd. unfold named, get_decorators_by_name.
  rewrite named_fold; [reflexivity |].
  unfold dd_values. simpl. now apply NoDup_filter.
Qed.



Lemma not_NoDup_split (l : list string) :
  ~ NoDup l <->
  exists n l1 l2 l3, l = (l1 ++ n :: l2 ++ n :: l3)%list.
Proof.
  split.
  - induction l as [| a l IH]; intros Hnd; [exfalso; apply Hnd; constructor |].
    destruct (in_dec string_dec a l) as [Hin | Hin].
    + apply in_split in Hin. destruct Hin as [l2 [l3 ->]].
      exists a, [], l2, l3. reflexivity.
    + destruct IH as [n [l1 [l2 [l3 ->]]]].
      * intros H. apply Hnd. now constructor.
      * exists n, (a :: l1), l2, l3. reflexivity.
  - intros [n [l1 [l2 [l3 ->]]]] Hnd.
    apply NoDup_remove_2 in Hnd. apply Hnd.
    apply in_or_app. right. apply in_or_app. right. now left.
Qed.

(** X6.  The duplicate test [len(names) != len(set(names))] is true exactly
    when some name occurs at two places of the list of selected names. *)
Theorem X6_has_duplicate_names (decorators : list PackageDecorator) :
  get_has_duplicate_names (get_selected_pkg_names decorators) = true
  <-> exists n l1 l2 l3,
        get_selected_pkg_names decorators
        = (l1 ++ n :: l2 ++ n :: l3)%list.
Proof.
  rewrite has_duplicate_names_true. apply not_NoDup_split.
Qed.

Lemma get_nodes_fold (l : list PackageDecorator)
  (acc : list (PackageDescriptor * Path)) :
  NoDup (map fst acc ++ map descriptor (filter selected l)) ->
  map fst
    (fold_left
       (fun nodes deco =>
          if negb (selected deco) then nodes
          else dict_set PackageDescriptor_eq_dec (descriptor deco)
                 (parent (path (descriptor deco))) nodes)
       l acc)
  = (map fst acc ++ map descriptor (filter selected l))%list.
Proof.
  revert acc. induction l as [| deco l IH]; intros acc Hnd; simpl.
  - now rewrite app_nil_r.
  - simpl in Hnd. destruct (selected deco); simpl in *.
    + assert (Hfresh : dict_contains PackageDescriptor_eq_dec
                         (descriptor deco) acc = false).
      { destruct (dict_contains PackageDescriptor_eq_dec
                    (descriptor deco) acc) eqn:Hc; [| reflexivity].
        apply dict_contains_In in Hc. exfalso.
        apply NoDup_remove_2 in Hnd. apply Hnd. apply in_or_app. auto. }
      rewrite IH; rewrite keys_dict_set, Hfresh.
      * now rewrite <- app_assoc.
      * now rewrite <- app_assoc.
    + now apply IH.
Qed.

Lemma declared_nil (lines : list dot_line) :
  (forall l, In l lines -> forall i n a, l <> Node_decl i n a) ->
  declared lines = [].
Proof.
  induction lines as [| l lines IH]; intros H; [reflexivity |].
  unfold declared. simpl. fold (declared lines).
  rewrite IH by (intros; apply H; now right).
  destruct l; try reflexivity.
  exfalso. now apply (H _ (or_introl eq_refl) indent node_name attributes).
Qed.

Lemma declared_output_edges (decorators : list PackageDecorator)
  (dup : bool) (direct indirect : edges) :
  declared (output_edges dup (get_decorators_by_name decorators)
              direct indirect) = [].
Proof.
  apply declared_nil. intros l Hin i n a ->.
  rewrite output_edges_two_passes in Hin. apply in_app_or in Hin.
  destruct Hin as [Hin | Hin]; apply In_edge_lines in Hin;
    destruct Hin as [? [? [? [? [_ [_ [_ Hl]]]]]]]; discriminate Hl.
Qed.

(** X7.  The selected descriptors are declared once each; when they are
    pairwise different, the unclustered output declares them in the
    reverse of the order of the decorators. *)
Theorem X7_nodes_in_reverse_order (decorators : list PackageDecorator) :
  let dup := get_has_duplicate_names (get_selected_pkg_names decorators) in
  let selected_descriptors := map descriptor (filter selected decorators) in
  NoDup (map fst (get_nodes decorators))
  /\ (forall d, In d (map fst (get_nodes decorators))
                <-> In d selected_descriptors)
  /\ (NoDup selected_descriptors ->
      map fst (get_nodes decorators) = rev selected_descriptors
      /\ exists edge_part,
           topological_graph_dot false decorators
           = Some ([Digraph_open]
                   ++ map (node_decl dup "  ") (rev selected_descriptors)
                   ++ edge_part ++ [Digraph_close])%list
           /\ declared edge_part = []).
Proof.
  intros dup selected_descriptors.
  split; [apply get_nodes_NoDup |].
  split; [intros d; apply get_nodes_selected |].
  intros Hnd.
  assert (Hkeys : map fst (get_nodes decorators) = rev selected_descriptors).
  { unfold get_nodes. rewrite get_nodes_fold; simpl.
    - now rewrite filter_rev, map_rev.
    - rewrite filter_rev, map_rev. now apply NoDup_rev. }
  split; [exact Hkeys |].
  exists (output_edges dup (get_decorators_by_name decorators)
            (direct_edges_of decorators) (indirect_edges_of decorators)).
  split.
  - unfold topological_graph_dot, output_nodes. simpl negb. cbv iota.
    fold dup. rewrite <- Hkeys, map_map. reflexivity.
  - apply declared_output_edges.
Qed.

Lemma X7_nodes_in_reverse_order_witness :
  map fst (get_nodes Samples.overlay)
  = [Samples.app; Samples.lib_3; Samples.lib_1].
Proof.
  destruct (X7_nodes_in_reverse_order Samples.overlay) as [_ [_ H]].
  destruct H as [Hkeys _]; [| exact Hkeys].
  simpl. repeat constructor; simpl; intuition discriminate.
Defined.

(** ** The DOT output as a whole *)


(** ** Clustering *)




Lemma map_snd_combine_seq {A : Type} (l : list A) (start : nat) :
  map snd (combine (seq start (List.length l)) l) = l.
Proof.
  revert start. induction l as [| a l IH]; intros start; simpl;
    [reflexivity | now rewrite IH].
Qed.






Lemma opened_app (a b : list dot_line) :
  opened (a ++ b) = (opened a ++ opened b)%list.
Proof. unfold opened. apply flat_map_app. Qed.

Lemma closings_app (a b : list dot_line) :
  closings (a ++ b) = closings a + closings b.
Proof. unfold closings. now rewrite filter_app, length_app. Qed.

Lemma node_decls_open_nothing (dup : bool) (indent : string)
  (descs : list PackageDescriptor) :
  opened (map (node_decl dup indent) descs) = []
  /\ closings (map (node_decl dup indent) descs) = 0.
Proof.
  induction descs as [| d descs [IHo IHc]]; [split; reflexivity |].
  unfold opened, closings in *. simpl. rewrite node_decl_eq. simpl. auto.
Qed.

Lemma wrappers_of_cluster_blocks (dup : bool)
  (ics : list (nat * (Path * list PackageDescriptor))) :
  let blocks :=
    flat_map
      (fun (ic : nat * (Path * list PackageDescriptor)) =>
         let '(i, (path, descs)) := ic in
         if string_dec (path_name path) ""
         then map (node_decl dup "  ") descs
         else ([Subgraph_open i; Subgraph_label path]
               ++ map (node_decl dup "    ") descs
               ++ [Subgraph_close])%list)
      ics in
  let wrapped :=
    filter
      (fun ic : nat * (Path * list PackageDescriptor) =>
         if string_dec (path_name (fst (snd ic))) "" then false else true)
      ics in
  opened blocks = map fst wrapped
  /\ closings blocks = List.length wrapped.
Proof.
  induction ics as [| [i [p descs]] l [IHo IHc]]; [split; reflexivity |].
  cbn [flat_map filter fst snd]. rewrite opened_app, closings_app.
  cbv zeta in IHo, IHc. rewrite IHo, IHc.
  destruct (node_decls_open_nothing dup "  " descs) as [Ho2 Hc2].
  destruct (node_decls_open_nothing dup "    " descs) as [Ho4 Hc4].
  destruct (string_dec (path_name p) "").
  - rewrite Ho2, Hc2. split; reflexivity.
  - change ([Subgraph_open i; Subgraph_label p]
            ++ map (node_decl dup "    ") descs ++ [Subgraph_close])%list
      with ([Subgraph_open i; Subgraph_label p]
            ++ (map (node_decl dup "    ") descs ++ [Subgraph_close]))%list.
    rewrite !opened_app, !closings_app, Ho4, Hc4. split; reflexivity.
Qed.

Lemma map_fst_combine_seq {A : Type} (l : list A) (start : nat) :
  map fst (combine (seq start (List.length l)) l)
  = seq start (List.length l).
Proof.
  revert start. induction l as [| a l IH]; intros start; simpl;
    [reflexivity | now rewrite IH].
Qed.

Lemma NoDup_map_filter {A B : Type} (proj : A -> B) (keep : A -> bool)
  (xs : list A) :
  NoDup (map proj xs) -> NoDup (map proj (filter keep xs)).
Proof.
  induction xs as [| a xs IH]; simpl; intros Hnd; [constructor |].
  inversion Hnd as [| ? ? Hnot Hnd']; subst.
  destruct (keep a); simpl; [| now apply IH].
  constructor; [| now apply IH].
  intros Hin. apply Hnot. apply in_map_iff in Hin.
  destruct Hin as [x [Hx Hin]]. apply filter_In in Hin.
  apply in_map_iff. exists x. tauto.
Qed.

Lemma filter_on_snd {A B : Type} (g : B -> bool) (l : list (A * B)) :
  List.length (filter (fun ab => g (snd ab)) l)
  = List.length (filter g (map snd l)).
Proof.
  induction l as [| [a b] l IH]; simpl; [reflexivity |].
  destruct (g b); simpl; now rewrite IH.
Qed.

(** X10.  In the clustered node part the subgraphs are numbered apart:
    no index is opened twice, every index is below the number of
    clusters, and there are as many opening as closing lines, one pair
    for each cluster whose relative path has a name. *)
Theorem X10_subgraphs_numbered_apart_and_closed (dup : bool)
  (clusters : clusters_t) :
  let out := output_clusters dup clusters in
  NoDup (opened out)
  /\ (forall i, In i (opened out) -> i < List.length clusters)
  /\ List.length (opened out) = closings out
  /\ closings out
     = List.length
         (filter
            (fun c : Path * list PackageDescriptor =>
               if string_dec (path_name (fst c)) "" then false else true)
            clusters).
Proof.
  intros out. unfold out, output_clusters.
  destruct (wrappers_of_cluster_blocks dup
              (combine (seq 0 (List.length clusters)) clusters))
    as [Ho Hc].
  cbv zeta in Ho, Hc. rewrite Ho, Hc.
  split; [| split; [| split]].
  - apply NoDup_map_filter. rewrite map_fst_combine_seq. apply seq_NoDup.
  - intros i Hin. apply in_map_iff in Hin.
    destruct Hin as [ic [<- Hin]]. apply filter_In in Hin.
    destruct Hin as [Hin _].
    assert (Hi : In (fst ic)
                   (map fst (combine (seq 0 (List.length clusters))
                               clusters)))
      by (now apply in_map).
    rewrite map_fst_combine_seq in Hi. apply in_seq in Hi. lia.
  - now rewrite length_map.
  - rewrite (filter_on_snd
               (fun c : Path * list PackageDescriptor =>
                  if string_dec (path_name (fst c)) "" then false else true)).
    now rewrite map_snd_combine_seq.
Qed.



(** ** Edge lines *)

Lemma str_mem_ext (c : string) (cs cs' : list string) :
  (forall x, In x cs <-> In x cs') -> str_mem c cs = str_mem c cs'.
Proof.
  intros H. unfold str_mem.
  destruct (mem string_dec c cs') eqn:Hm.
  - apply mem_true_iff. apply H. now apply mem_true_iff in Hm.
  - apply mem_false_iff. intros Hin. apply mem_false_iff in Hm.
    apply Hm. now apply H.
Qed.

(** X12.  The colour expression of an edge depends only on which of
    [build], [run] and [test] are among its categories, not on their order
    or on other categories; it is empty exactly when none of the three is
    present. *)
Theorem X12_edge_colors (categories : list string) :
  (forall categories',
     (forall c, In c categories <-> In c categories') ->
     edge_colors categories = edge_colors categories')
  /\ (edge_colors categories = ""
      <-> ~ In "build" categories /\ ~ In "run" categories
          /\ ~ In "test" categories)
  /\ (forall others,
        (forall c, In c others ->
           c <> "build" /\ c <> "run" /\ c <> "test") ->
        edge_colors (others ++ categories) = edge_colors categories).
Proof.
  assert (Hext : forall cs cs',
            (forall c, In c cs <-> In c cs') ->
            edge_colors cs = edge_colors cs').
  { intros cs cs' H. rewrite !edge_colors_spec. unfold spec_edge_colors.
    now rewrite (str_mem_ext "build" cs cs' H),
      (str_mem_ext "run" cs cs' H), (str_mem_ext "test" cs cs' H). }
  split; [apply Hext | split].
  - rewrite edge_colors_spec. unfold spec_edge_colors, str_mem.
    destruct (mem string_dec "build" categories) eqn:Hb,
      (mem string_dec "run" categories) eqn:Hr,
      (mem string_dec "test" categories) eqn:Ht;
      try apply mem_true_iff in Hb; try apply mem_false_iff in Hb;
      try apply mem_true_iff in Hr; try apply mem_false_iff in Hr;
      try apply mem_true_iff in Ht; try apply mem_false_iff in Ht;
      simpl; split; try discriminate; try tauto.
  - intros others Hothers.
    rewrite !edge_colors_spec. unfold spec_edge_colors.
    assert (Hmem : forall c, c = "build" \/ c = "run" \/ c = "test" ->
              str_mem c (others ++ categories) = str_mem c categories).
    { intros c Hc. unfold str_mem.
      destruct (mem string_dec c categories) eqn:Hm.
      - apply mem_true_iff. apply in_or_app. right.
        now apply mem_true_iff in Hm.
      - apply mem_false_iff. apply mem_false_iff in Hm.
        intros Hin. apply in_app_or in Hin. destruct Hin as [Hin | Hin];
          [| now apply Hm].
        destruct (Hothers c Hin) as [H1 [H2 H3]].
        destruct Hc as [-> | [-> | ->]]; congruence. }
    now rewrite !Hmem by auto.
Qed.

Lemma X12_edge_colors_witness :
  edge_colors ["test"; "build"] = "blue:tan"
  /\ edge_colors ["doc"] = "".
Proof.
  destruct (X12_edge_colors ["build"; "test"]) as [Hext _].
  destruct (X12_edge_colors ["doc"]) as [_ [Hempty _]].
  split.
  - rewrite <- (Hext ["test"; "build"]); [reflexivity |].
    intros c. simpl. tauto.
  - apply Hempty. simpl. intuition discriminate.
Defined.

Lemma filter_same_name (decorators : list PackageDecorator)
  (inst : PackageDecorator) :
  NoDup (map (fun m => name (descriptor m)) decorators) ->
  In inst decorators ->
  filter (fun d => String.eqb (name (descriptor d)) (name (descriptor inst)))
    decorators = [inst].
Proof.
  induction decorators as [| a l IH]; simpl; intros Hnd Hin; [destruct Hin |].
  inversion Hnd as [| ? ? Hnot Hnd']; subst.
  destruct Hin as [-> | Hin].
  - rewrite String.eqb_refl. f_equal.
    destruct (filter _ l) as [| x xs] eqn:Hf; [reflexivity |].
    exfalso. apply Hnot.
    assert (Hx : In x (filter
                         (fun d => String.eqb (name (descriptor d))
                                     (name (descriptor inst))) l))
      by (rewrite Hf; now left).
    apply filter_In in Hx. destruct Hx as [Hx Hname].
    apply String.eqb_eq in Hname. rewrite <- Hname.
    apply in_map_iff. exists x. auto.
  - destruct (String.eqb (name (descriptor a)) (name (descriptor inst)))
      eqn:Hname.
    + exfalso. apply Hnot. apply String.eqb_eq in Hname. rewrite Hname.
      apply in_map_iff. exists inst. auto.
    + now apply IH.
Qed.

Lemma NoDup_of_map {A B : Type} (f : A -> B) (l : list A) :
  NoDup (map f l) -> NoDup l.
Proof.
  induction l as [| a l IH]; simpl; intros Hnd; [constructor |].
  inversion Hnd as [| ? ? Hnot Hnd']; subst.
  constructor; [| now apply IH]. intros Hin. apply Hnot. now apply in_map.
Qed.

(** X13.  Every stored edge is drawn: it gets at least one line, to a
    decorator bearing its target name.  When no two decorators of the full
    list share a name, it gets exactly one, so there are as many solid
    lines as direct edges and as many dashed lines as indirect edges. *)
Theorem X13_every_edge_is_drawn (decorators : list PackageDecorator)
  (es : edges) (style : string) :
  let dup := get_has_duplicate_names (get_selected_pkg_names decorators) in
  let bn := get_decorators_by_name decorators in
  es = direct_edges_of decorators \/ es = indirect_edges_of decorators ->
  (forall src tgt categories,
     In ((src, tgt), categories) es ->
     exists inst,
       In inst decorators /\ name (descriptor inst) = tgt
       /\ In (Edge_decl (fst (get_node_data dup src))
                (fst (get_node_data dup (descriptor inst)))
                (edge_colors categories) style)
            (edge_lines dup bn style es))
  /\ (NoDup (map (fun m => name (descriptor m)) decorators) ->
      List.length (edge_lines dup bn style es) = List.length es).
Proof.
  intros dup bn Hes.
  assert (Htarget : forall src tgt categories,
            In ((src, tgt), categories) es ->
            exists inst, In inst decorators /\ name (descriptor inst) = tgt).
  { intros src tgt categories Hin.
    assert (Hs : In tgt (get_selected_pkg_names decorators)).
    { apply (edge_target_selected decorators src tgt categories).
      destruct Hes as [-> | ->]; auto. }
    apply In_selected_pkg_names in Hs.
    destruct Hs as [m [Hm [_ Hn]]]. eauto. }
  split.
  - intros src tgt categories Hin.
    destruct (Htarget _ _ _ Hin) as [inst [Hinst Hname]].
    exists inst. split; [exact Hinst |]. split; [exact Hname |].
    apply In_edge_lines. exists src, tgt, categories, inst. auto.
  - intros Hnames. unfold edge_lines. rewrite length_flat_map.
    assert (Hone : forall e, In e es ->
              List.length
                (let '(desc_start, node_end, categories) := e in
                 map (fun deco =>
                        Edge_decl (fst (get_node_data dup desc_start))
                          (fst (get_node_data dup (descriptor deco)))
                          (edge_colors categories) style)
                   (named node_end bn)) = 1).
    { intros [[src tgt] categories] Hin. rewrite length_map.
      destruct (Htarget _ _ _ Hin) as [inst [Hinst <-]].
      unfold bn. rewrite named_filter by (now apply NoDup_of_map in Hnames).
      now rewrite filter_same_name. }
    clear Htarget Hes. induction es as [| e es IH]; [reflexivity |].
    simpl. rewrite Hone by (now left).
    rewrite IH; [reflexivity |]. intros e' He'. apply Hone. now right.
Qed.

Lemma X13_every_edge_is_drawn_witness :
  List.length
    (edge_lines false (get_decorators_by_name Samples.chain) dashed
       (indirect_edges_of Samples.chain)) = 1.
Proof.
  destruct (X13_every_edge_is_drawn Samples.chain
              (indirect_edges_of Samples.chain) dashed (or_intror eq_refl))
    as [_ Hcount].
  apply Hcount.
  simpl. repeat constructor; simpl; intuition discriminate.
Defined.

(** ** More on the ASCII matrix *)

Lemma column_empty_below (sym : nat -> ascii) (c m : nat) :
  c < m ->
  (forall r, c < r -> r < m -> sym r = " "%char) ->
  m - 1 - c <= count_empty sym (seq 0 m).
Proof.
  intros Hc Hsp. unfold count_empty.
  replace (seq 0 m) with (seq 0 (S c) ++ seq (S c) (m - 1 - c))%list
    by (rewrite <- seq_app; f_equal; lia).
  rewrite filter_app, length_app.
  assert (Hall : filter (fun j => Ascii.eqb (sym j) " ")
                   (seq (S c) (m - 1 - c))
                 = seq (S c) (m - 1 - c)).
  { apply forallb_filter_id. apply forallb_forall. intros r Hr.
    apply in_seq in Hr. rewrite Hsp by lia. reflexivity. }
  rewrite Hall, length_seq. lia.
Qed.

Lemma triangle_sum (m k : nat) :
  k <= m ->
  2 * list_sum (map (fun c => m - 1 - c) (seq 0 k)) = k * (2 * m - 1 - k).
Proof.
  induction k as [| k IH]; intros Hk; [reflexivity |].
  rewrite seq_S, map_app, list_sum_app. simpl.
  specialize (IH ltac:(lia)). nia.
Qed.

Lemma list_sum_le (lo hi : nat -> nat) (cols : list nat) :
  (forall c, In c cols -> lo c <= hi c) ->
  list_sum (map lo cols) <= list_sum (map hi cols).
Proof.
  induction cols as [| c cols IH]; simpl; intros H; [lia |].
  specialize (H c (or_introl eq_refl)) as Hc.
  specialize (IH (fun x Hx => H x (or_intror Hx))). lia.
Qed.
Section MatrixMore.
Variable get_recursive_dependencies :
  PackageDescriptor -> list PackageDescriptor -> list string.
Variable decorators : list PackageDecorator.

Let shown := get_shown_decorators decorators.
Let n := List.length shown.

Lemma cell_cases (r c : nat) :
  r < n -> c < n ->
  cell get_recursive_dependencies decorators r c
  = Some (if Nat.eqb r c then "+"
          else if str_mem (shown_name shown r) (nth c (get_depends shown) [])
          then "*"
          else if str_mem (shown_name shown r)
                    (nth c (get_rec_depends get_recursive_dependencies
                              decorators shown) [])
          then "."
          else " ")%char.
Proof.
  intros Hr Hc. rewrite matrix_cell by assumption.
  now rewrite matrix_symbol_cases.
Qed.

Lemma nth_depends (c : nat) (deco : PackageDecorator) :
  nth_error shown c = Some deco ->
  nth c (get_depends shown) [] = get_dependencies (descriptor deco)
  /\ shown_name shown c = name (descriptor deco)
  /\ In deco decorators /\ selected deco = true.
Proof.
  intros Hnth. unfold get_depends, shown_name.
  assert (Hc : c < List.length shown)
    by (apply nth_error_Some; congruence).
  split; [| split].
  - apply nth_error_nth. now rewrite nth_error_map, Hnth.
  - apply nth_error_nth. now rewrite nth_error_map, Hnth.
  - apply nth_error_In in Hnth. unfold shown, get_shown_decorators in Hnth.
    now apply filter_In in Hnth.
Qed.

End MatrixMore.

(** X14.  In the matrix every symbol is one of ["+"], ["*"], ["."] and the
    space, and ["+"] stands on the diagonal and nowhere else. *)
Theorem X14_plus_exactly_on_diagonal
  (get_recursive_dependencies :
     PackageDescriptor -> list PackageDescriptor -> list string)
  (decorators : list PackageDecorator) (r c : nat) :
  r < List.length (get_shown_decorators decorators) ->
  c < List.length (get_shown_decorators decorators) ->
  (cell get_recursive_dependencies decorators r c = Some "+"%char
   \/ cell get_recursive_dependencies decorators r c = Some "*"%char
   \/ cell get_recursive_dependencies decorators r c = Some "."%char
   \/ cell get_recursive_dependencies decorators r c = Some " "%char)
  /\ (cell get_recursive_dependencies decorators r c = Some "+"%char
      <-> r = c).
Proof.
  intros Hr Hc. rewrite cell_cases by assumption.
  destruct (Nat.eqb r c) eqn:Heq.
  - apply Nat.eqb_eq in Heq. split; [auto | tauto].
  - apply Nat.eqb_neq in Heq.
    destruct (str_mem _ (nth c (get_depends _) []));
      [| destruct (str_mem _ _)];
      (split; [auto | split; [discriminate | contradiction]]).
Qed.

Lemma X14_plus_exactly_on_diagonal_witness :
  cell Samples.chain_closure Samples.chain 2 2 = Some "+"%char
  /\ cell Samples.chain_closure Samples.chain 0 2 <> Some "+"%char.
Proof.
  destruct (X14_plus_exactly_on_diagonal Samples.chain_closure Samples.chain
              2 2 ltac:(simpl; lia) ltac:(simpl; lia)) as [_ Hd].
  destruct (X14_plus_exactly_on_diagonal Samples.chain_closure Samples.chain
              0 2 ltac:(simpl; lia) ltac:(simpl; lia)) as [_ Ho].
  split; [now apply Hd | intros H; apply Ho in H; discriminate H].
Defined.

(** X15.  No name is cut and every name is set off: a row is the whole
    name of its node, at least two spaces, and the symbols, and all rows
    have the same length. *)
Theorem X15_rows_aligned
  (get_recursive_dependencies :
     PackageDescriptor -> list PackageDescriptor -> list string)
  (decorators : list PackageDecorator) (r : nat) :
  let shown := get_shown_decorators decorators in
  r < List.length shown ->
  exists pad cells,
    nth r (matrix_lines get_recursive_dependencies decorators) ""
    = shown_name shown r ++ spaces pad ++ cells
    /\ 2 <= pad
    /\ String.length (shown_name shown r) + pad = get_max_length shown + 2
    /\ String.length
         (nth r (matrix_lines get_recursive_dependencies decorators) "")
       = get_max_length shown + 2 + List.length shown.
Proof.
  intros shown Hr.
  pose proof (shown_name_length decorators r) as Hlen. fold shown in Hlen.
  exists (get_max_length shown + 2 - String.length (shown_name shown r)).
  exists (string_of_list_ascii
            (map (fun c => matrix_symbol get_recursive_dependencies
                             decorators c r)
               (seq 0 (List.length shown)))).
  rewrite matrix_row by exact Hr. fold shown. unfold ljust.
  split; [now rewrite string_append_assoc |].
  split; [lia |]. split; [lia |].
  rewrite !string_length_append, length_spaces,
    length_string_of_list_ascii, length_map, length_seq. lia.
Qed.

Lemma X15_rows_aligned_witness :
  String.length (nth 0 (matrix_lines Samples.chain_closure Samples.chain) "")
  = 9
  /\ String.length
       (nth 1 (matrix_lines Samples.chain_closure Samples.chain) "") = 9.
Proof.
  destruct (X15_rows_aligned Samples.chain_closure Samples.chain 0
              ltac:(simpl; lia)) as [p0 [c0 [_ [_ [_ H0]]]]].
  destruct (X15_rows_aligned Samples.chain_closure Samples.chain 1
              ltac:(simpl; lia)) as [p1 [c1 [_ [_ [_ H1]]]]].
  split; [exact H0 | exact H1].
Defined.

(** X16.  When the shown decorators are in topological order (no node
    depends, directly or recursively, on the name of a later node), every
    cell below the diagonal is a space, at least half of the cells off
    the diagonal are empty, and the density is at most 100. *)
Theorem X16_topological_order_half_empty
  (get_recursive_dependencies :
     PackageDescriptor -> list PackageDescriptor -> list string)
  (decorators : list PackageDecorator) :
  let shown := get_shown_decorators decorators in
  let n := List.length shown in
  (forall r c, c < r -> r < n ->
     ~ In (shown_name shown r) (nth c (get_depends shown) [])
     /\ ~ In (shown_name shown r)
            (nth c (get_rec_depends get_recursive_dependencies
                      decorators shown) [])) ->
  (forall r c, c < r -> r < n ->
     cell get_recursive_dependencies decorators r c = Some " "%char)
  /\ n * (n - 1)
     <= 2 * matrix_empty_cells get_recursive_dependencies decorators
  /\ (density_percentage n
        (matrix_empty_cells get_recursive_dependencies decorators)
      <= 100)%Q.
Proof.
  intros shown n Htopo.
  assert (Hsym : forall r c, c < r -> r < n ->
            matrix_symbol get_recursive_dependencies decorators c r
            = " "%char).
  { intros r c Hc Hr. rewrite matrix_symbol_cases. fold shown.
    destruct (Htopo r c Hc Hr) as [Hd Hrec].
    assert (Hne : Nat.eqb r c = false) by (apply Nat.eqb_neq; lia).
    rewrite Hne. unfold str_mem.
    apply (mem_false_iff string_dec) in Hd, Hrec. now rewrite Hd, Hrec. }
  assert (Hhalf : n * (n - 1)
                  <= 2 * matrix_empty_cells get_recursive_dependencies
                         decorators).
  { rewrite matrix_empty_cells_eq. fold shown n.
    pose proof (triangle_sum n n (le_n n)) as Htri.
    assert (Hle : list_sum (map (fun c => n - 1 - c) (seq 0 n))
                  <= list_sum
                       (map (fun i =>
                               count_empty
                                 (matrix_symbol get_recursive_dependencies
                                    decorators i) (seq 0 n)) (seq 0 n))).
    { apply list_sum_le. intros c Hc. apply in_seq in Hc.
      apply column_empty_below; [lia |].
      intros r Hcr Hr. now apply Hsym. }
    nia. }
  split; [| split; [exact Hhalf |]].
  - intros r c Hc Hr. rewrite matrix_cell by (fold shown n; lia).
    now rewrite Hsym.
  - unfold density_percentage. destruct (Nat.ltb 1 n) eqn:Hn; [| lra].
    apply Nat.ltb_lt in Hn.
    set (e := matrix_empty_cells get_recursive_dependencies decorators)
      in *.
    assert (Hm : (0 < inject_Z (Z.of_nat (n * (n - 1))))%Q).
    { change 0%Q with (inject_Z 0). rewrite <- Zlt_Qlt. nia. }
    assert (Hx : (1 # 2 <= inject_Z (Z.of_nat e)
                          / inject_Z (Z.of_nat (n * (n - 1))))%Q).
    { apply Qle_shift_div_l; [exact Hm |].
      assert (He : (inject_Z (Z.of_nat (n * (n - 1)))
                    <= inject_Z (Z.of_nat (2 * e)))%Q)
        by (rewrite <- Zle_Qle; lia).
      replace (Z.of_nat (2 * e)) with (2 * Z.of_nat e)%Z in He by lia.
      rewrite inject_Z_mult in He. change (inject_Z 2) with 2%Q in He.
      lra. }
    lra.
Qed.

Lemma X16_topological_order_half_empty_witness :
  cell Samples.chain_closure Samples.chain 2 0 = Some " "%char
  /\ 3 * 2 <= 2 * matrix_empty_cells Samples.chain_closure Samples.chain.
Proof.
  destruct (X16_topological_order_half_empty Samples.chain_closure
              Samples.chain) as [Hcell [Hhalf _]].
  - intros r c Hc Hr. simpl in Hr.
    destruct r as [| [| [| r]]]; try lia;
      destruct c as [| [| c]]; try lia;
      vm_compute; intuition discriminate.
  - split; [apply Hcell; simpl; lia | exact Hhalf].
Defined.

(** X17.  The two renderings agree on direct dependencies: off the
    diagonal the matrix has ["*"] at row [r], column [c] exactly when the
    direct-edge dictionary of the DOT rendering has the key made of the
    descriptor of node [c] and the name of node [r]. *)
Theorem X17_star_is_direct_edge
  (get_recursive_dependencies :
     PackageDescriptor -> list PackageDescriptor -> list string)
  (decorators : list PackageDecorator) (r c : nat)
  (deco_r deco_c : PackageDecorator) :
  nth_error (get_shown_decorators decorators) r = Some deco_r ->
  nth_error (get_shown_decorators decorators) c = Some deco_c ->
  r <> c ->
  (cell get_recursive_dependencies decorators r c = Some "*"%char
   <-> edge_in (descriptor deco_c, name (descriptor deco_r))
         (direct_edges_of decorators) = true).
Proof.
  intros Hr Hc Hne.
  assert (Hrn : r < List.length (get_shown_decorators decorators))
    by (apply nth_error_Some; congruence).
  assert (Hcn : c < List.length (get_shown_decorators decorators))
    by (apply nth_error_Some; congruence).
  destruct (nth_depends decorators r deco_r Hr) as [_ [Hname_r [Hin_r Hsel_r]]].
  destruct (nth_depends decorators c deco_c Hc) as [Hdep_c [_ [Hin_c Hsel_c]]].
  rewrite cell_cases by assumption. rewrite Hdep_c, Hname_r.
  apply Nat.eqb_neq in Hne. rewrite Hne.
  rewrite direct_edge_key. unfold str_mem.
  destruct (mem string_dec (name (descriptor deco_r))
              (get_dependencies (descriptor deco_c))) eqn:Hm.
  - apply mem_true_iff in Hm. split; [intros _ | reflexivity].
    split; [eauto |]. split; [exact Hm |].
    apply In_selected_pkg_names. eauto.
  - apply mem_false_iff in Hm. split.
    + destruct (mem string_dec _ _); discriminate.
    + intros [_ [H _]]. contradiction.
Qed.

Lemma X17_star_is_direct_edge_witness :
  cell Samples.chain_closure Samples.chain 1 2 = Some "*"%char.
Proof.
  apply (X17_star_is_direct_edge Samples.chain_closure Samples.chain 1 2
           (mkDecorator Samples.mid true ["hidden"; "base"])
           (mkDecorator Samples.top true []) eq_refl eq_refl).
  - discriminate.
  - vm_compute. reflexivity.
Defined.

(** ** The plain listing *)

Lemma leb_iff (a b : string) :
  String.leb a b = true <-> a = b \/ String_as_OT.lt a b.
Proof.
  unfold String.leb.
  destruct (String.compare a b) eqn:Hcmp.
  - apply String_as_OT.cmp_eq in Hcmp. tauto.
  - apply String_as_OT.cmp_lt in Hcmp. tauto.
  - split; [discriminate |]. intros [-> | Hlt].
    + assert (H : String_as_OT.cmp b b = Eq)
        by (now apply String_as_OT.cmp_eq).
      unfold String_as_OT.cmp in H. congruence.
    + apply String_as_OT.cmp_lt in Hlt.
      unfold String_as_OT.cmp in Hlt. congruence.
Qed.

Lemma leb_trans (a b c : string) :
  String.leb a b = true -> String.leb b c = true -> String.leb a c = true.
Proof.
  rewrite !leb_iff. intros [-> | Hab] [-> | Hbc]; auto.
  right. eapply String_as_OT.lt_trans; eauto.
Qed.

Lemma ltb_leb (a b : string) : String.ltb a b = true -> String.leb a b = true.
Proof.
  unfold String.ltb, String.leb. destruct (String.compare a b); congruence.
Qed.

Lemma not_ltb_leb (a b : string) :
  String.ltb a b = false -> String.leb b a = true.
Proof.
  unfold String.ltb, String.leb. rewrite (String.compare_antisym b a).
  destruct (String.compare a b); simpl; congruence.
Qed.

Section SortedBy.
Context {A : Type}.
Variable key : A -> string.

Let le (x y : A) : Prop := String.leb (key x) (key y) = true.

Lemma insert_by_permutation (x : A) (l : list A) :
  Permutation (insert_by key x l) (x :: l).
Proof.
  induction l as [| y l IH]; simpl; [reflexivity |].
  destruct (String.ltb (key x) (key y)); [reflexivity |].
  rewrite IH. apply perm_swap.
Qed.

Lemma insert_by_sorted (x : A) (l : list A) :
  StronglySorted le l -> StronglySorted le (insert_by key x l).
Proof.
  induction 1 as [| y l Hs IH Hall]; simpl.
  - repeat constructor.
  - destruct (String.ltb (key x) (key y)) eqn:Hlt.
    + constructor; [now constructor |].
      constructor; [now apply ltb_leb |].
      rewrite Forall_forall in *. intros z Hz.
      eapply leb_trans; [apply ltb_leb; exact Hlt | now apply Hall].
    + constructor; [exact IH |].
      rewrite Forall_forall in *. intros z Hz.
      apply (Permutation_in _ (insert_by_permutation x l)) in Hz.
      destruct Hz as [<- | Hz]; [now apply not_ltb_leb | now apply Hall].
Qed.

Lemma sorted_by_fold (l acc : list A) :
  StronglySorted le acc ->
  Permutation (fold_left (fun acc x => insert_by key x acc) l acc)
    (acc ++ l)
  /\ StronglySorted le (fold_left (fun acc x => insert_by key x acc) l acc).
Proof.
  revert acc. induction l as [| x l IH]; intros acc Hacc; simpl.
  - now rewrite app_nil_r.
  - destruct (IH (insert_by key x acc) (insert_by_sorted x acc Hacc))
      as [Hperm Hsorted].
    split; [| exact Hsorted].
    rewrite Hperm, insert_by_permutation. simpl. apply Permutation_middle.
Qed.

Lemma sorted_by_permutation (l : list A) : Permutation (sorted_by key l) l.
Proof.
  unfold sorted_by.
  destruct (sorted_by_fold l []) as [H _]; [constructor | exact H].
Qed.

Lemma sorted_by_sorted (l : list A) :
  StronglySorted (fun x y => String.leb (key x) (key y) = true)
    (sorted_by key l).
Proof.
  unfold sorted_by.
  destruct (sorted_by_fold l []) as [_ H]; [constructor | exact H].
Qed.
End SortedBy.

(** A sorted list of strings is determined by its elements. *)
Lemma sorted_strings_unique (l1 l2 : list string) :
  StronglySorted (fun x y => String.leb x y = true) l1 ->
  StronglySorted (fun x y => String.leb x y = true) l2 ->
  Permutation l1 l2 -> l1 = l2.
Proof.
  intros H1. revert l2.
  induction H1 as [| a l1 Hs1 IH Hall1]; intros l2 H2 Hperm.
  - now apply Permutation_nil in Hperm.
  - destruct H2 as [| b l2 Hs2 Hall2].
    + apply Permutation_sym, Permutation_nil in Hperm. discriminate.
    + assert (Hab : a = b).
      { rewrite Forall_forall in Hall1, Hall2.
        assert (Ha : In a (b :: l2))
          by (apply (Permutation_in _ Hperm); now left).
        assert (Hb : In b (a :: l1))
          by (apply (Permutation_in _ (Permutation_sym Hperm)); now left).
        destruct Ha as [-> | Ha]; [reflexivity |].
        destruct Hb as [-> | Hb]; [reflexivity |].
        apply String.leb_antisym; auto. }
      subst b. f_equal. apply IH; [exact Hs2 |].
      now apply Permutation_cons_inv in Hperm.
Qed.

Lemma filter_permutation {A : Type} (keep : A -> bool) (xs ys : list A) :
  Permutation xs ys -> Permutation (filter keep xs) (filter keep ys).
Proof.
  induction 1 as [| x xs ys Hp IH | x y xs | xs ys zs H1 IH1 H2 IH2]; simpl.
  - constructor.
  - destruct (keep x); [now constructor | exact IH].
  - destruct (keep x), (keep y); try reflexivity. apply perm_swap.
  - now rewrite IH1.
Qed.

Lemma sorted_lines_of_permutation (g : PackageDecorator -> string)
  (l l' : list PackageDecorator) :
  Permutation l l' ->
  sorted_by (fun line => line) (map g (filter selected l))
  = sorted_by (fun line => line) (map g (filter selected l')).
Proof.
  intros Hperm. apply sorted_strings_unique.
  - apply (sorted_by_sorted (fun line : string => line)).
  - apply (sorted_by_sorted (fun line : string => line)).
  - rewrite !sorted_by_permutation. apply Permutation_map.
    now apply filter_permutation.
Qed.

(** X18.  The plain listing has one line per selected decorator.  With
    the topological order it keeps the order of the decorators; without,
    it is the sorted list of the same lines, and sorting the decorators
    by name beforehand changes nothing. *)
Theorem X18_plain_listing (names_only paths_only : bool)
  (decorators : list PackageDecorator) :
  let formatted :=
    map (fun decorator =>
           format_package names_only paths_only (descriptor decorator))
        (filter selected decorators) in
  list_packages true names_only paths_only decorators = formatted
  /\ list_packages false names_only paths_only decorators
     = sorted_by (fun line => line) formatted
  /\ Permutation (list_packages false names_only paths_only decorators)
       formatted
  /\ StronglySorted (fun x y => String.leb x y = true)
       (list_packages false names_only paths_only decorators)
  /\ forall topological_order,
       List.length
         (list_packages topological_order names_only paths_only decorators)
       = List.length (filter selected decorators).
Proof.
  intros formatted.
  assert (Hsorted : list_packages false names_only paths_only decorators
                    = sorted_by (fun line => line) formatted).
  { unfold list_packages. simpl. apply sorted_lines_of_permutation.
    apply sorted_by_permutation. }
  split; [reflexivity |]. split; [exact Hsorted |].
  split; [rewrite Hsorted; apply sorted_by_permutation |].
  split; [rewrite Hsorted;
          apply (sorted_by_sorted (fun line : string => line)) |].
  intros [|].
  - unfold list_packages. simpl. now rewrite length_map.
  - rewrite Hsorted.
    rewrite (Permutation_length (sorted_by_permutation _ formatted)).
    unfold formatted. now rewrite length_map.
Qed.

Lemma X18_plain_listing_witness :
  list_packages false true false Samples.chain = ["base"; "mid"; "top"]
  /\ list_packages true true false (rev Samples.chain)
     = ["top"; "mid"; "base"].
Proof.
  destruct (X18_plain_listing true false Samples.chain)
    as [_ [Hsorted _]].
  destruct (X18_plain_listing true false (rev Samples.chain))
    as [Htopo _].
  split; [rewrite Hsorted; reflexivity | rewrite Htopo; reflexivity].
Defined.

(** X19.  Without the topological order the listing does not depend on
    the order in which the decorators arrive. *)
Theorem X19_plain_listing_order_independent (names_only paths_only : bool)
  (decorators decorators' : list PackageDecorator) :
  Permutation decorators decorators' ->
  list_packages false names_only paths_only decorators
  = list_packages false names_only paths_only decorators'.
Proof.
  intros Hperm. unfold list_packages. simpl.
  apply sorted_lines_of_permutation.
  rewrite !sorted_by_permutation. exact Hperm.
Qed.

Lemma X19_plain_listing_order_independent_witness :
  list_packages false false true Samples.chain
  = list_packages false false true (rev Samples.chain).
Proof.
  apply X19_plain_listing_order_independent. apply Permutation_rev.
Defined.

(** ** The verb as a whole *)



(** ** What the unselected decorators cannot change *)

Lemma fold_left_filter {S A : Type} (p : A -> bool) (step : S -> A -> S)
  (l : list A) (s : S) :
  (forall s' x, p x = false -> step s' x = s') ->
  fold_left step l s = fold_left step (filter p l) s.
Proof.
  intros Hskip. revert s. induction l as [| a l IH]; intros s; simpl;
    [reflexivity |].
  destruct (p a) eqn:Hp; simpl; [apply IH |].
  rewrite Hskip by exact Hp. apply IH.
Qed.

Lemma filter_idempotent {A : Type} (p : A -> bool) (l : list A) :
  filter p (filter p l) = filter p l.
Proof.
  induction l as [| a l IH]; simpl; [reflexivity |].
  destruct (p a) eqn:Hp; simpl; [rewrite Hp; now f_equal | exact IH].
Qed.

(** X21.  The direct edges, the declared nodes and the duplicate test look
    at the selected decorators only: dropping the unselected ones from the
    input leaves them as they are.  (The indirect edges do depend on
    them.) *)
Theorem X21_unselected_decorators_ignored
  (decorators : list PackageDecorator) :
  direct_edges_of (filter selected decorators) = direct_edges_of decorators
  /\ get_nodes (filter selected decorators) = get_nodes decorators
  /\ get_has_duplicate_names
       (get_selected_pkg_names (filter selected decorators))
     = get_has_duplicate_names (get_selected_pkg_names decorators)
  /\ indirect_edges_of (filter selected decorators) = [].
Proof.
  assert (Hnames : get_selected_pkg_names (filter selected decorators)
                   = get_selected_pkg_names decorators).
  { unfold get_selected_pkg_names. now rewrite filter_idempotent. }
  split; [| split; [| split]].
  - unfold direct_edges_of, collect_direct_edges. rewrite Hnames.
    rewrite <- filter_rev. symmetry.
    apply (fold_left_filter selected). intros s deco Hsel.
    now rewrite Hsel.
  - unfold get_nodes. rewrite <- filter_rev. symmetry.
    apply (fold_left_filter selected). intros s deco Hsel.
    now rewrite Hsel.
  - now rewrite Hnames.
  - destruct (indirect_edges_of (filter selected decorators))
      as [| [[d t] cs] es] eqn:Hes; [reflexivity |].
    assert (Hkey : edge_in (d, t)
                     (indirect_edges_of (filter selected decorators))
                   = true).
    { rewrite Hes. apply (edge_key_present _ _ cs). now left. }
    apply indirect_edge_in in Hkey. destruct Hkey as [c Hc].
    apply indirect_edge_categories in Hc.
    destruct Hc as [deco [deps [dep [inst Hc]]]].
    destruct Hc as [_ [_ [_ [_ [_ [Hns [Hinst [Hname _]]]]]]]].
    exfalso. apply Hns. apply In_selected_pkg_names.
    exists inst. apply filter_In in Hinst as Hsel. tauto.
Qed.

Lemma X21_unselected_decorators_ignored_witness :
  direct_edges_of (filter selected Samples.chain)
  = direct_edges_of Samples.chain
  /\ indirect_edges_of Samples.chain <> [].
Proof.
  destruct (X21_unselected_decorators_ignored Samples.chain) as [H _].
  split; [exact H | discriminate].
Defined.
